(** * glog: the date-rotating log writer (DateRotator) and its retention sweep

    A shallow embedding of the rotating writer of package [glog]:
    [NewDateRotator], [Write], [getFileHandler], [Close], [cleanRunOnce],
    [oldLogFiles] and [timeFromName].

    - Go's [int64] is a [Z] with the wrap-around of every operation written
      out ([wrap64]); [%] is Go's truncated remainder ([Z.rem]) and panics
      on a zero divisor.
    - The process's files are an explicit table [OS]: a file handle is an
      index in the table, and every call made to the operating system is
      recorded, in order, in [events].
    - What the operating system and the clock answer is an input of each
      operation ([env], [sweepEnv], [ctorEnv]).
    - The functions of Go's standard library that the code calls on strings
      and times ([time.Format], [time.Parse], [filepath.Join],
      [filepath.Split], [sort.Sort]) are the fields of the class [GoLib].
    - The mutex is not modelled: every operation runs to its end under the
      writer's exclusive lock, so operations are atomic steps.
    - The goroutine that [getFileHandler] launches after a rotation is the
      event [EvGo]; what it runs, [cleanRunOnce], is a function of its own
      from the directory listing and the clock to the removals it tries and
      the error it returns. *)

From Stdlib Require Import ZArith String Ascii List Lia Bool.
From stdpp Require Import base option list strings pretty.

Open Scope Z_scope.

(** ** 64-bit integers *)

Definition int64_max : Z := 9223372036854775807.
Definition int64_min : Z := -9223372036854775808.

(** Two's complement wrap-around of a mathematical integer into [int64]. *)
Definition wrap64 (z : Z) : Z := (z + 9223372036854775808) mod 18446744073709551616 - 9223372036854775808.

Definition add64 (a b : Z) : Z := wrap64 (a + b).
Definition sub64 (a b : Z) : Z := wrap64 (a - b).
Definition mul64 (a b : Z) : Z := wrap64 (a * b).
Definition neg64 (a : Z) : Z := wrap64 (- a).

(** [(24 * time.Hour).Nanoseconds()] *)
Definition day_ns : Z := 86400000000000.

(** ** Errors *)

(** Errors of package [os]. [ErrInvalid] is what a method of a nil pointer to [os.File]
    returns, [ErrClosed] what a method of an already closed file returns. *)
Inductive oserror : Type :=
| ErrInvalid
| ErrClosed
| Errno (msg : string).

(** Errors the package returns. [ClosedWriterError] is
    [errors.New("target io.Writer is closed")], [FileOpenError] is the
    [errors.New(fmt.Sprintf("failed to open file %s: %s", ...))] of
    [getFileHandler], [ReadDirError] the [fmt.Errorf] of [oldLogFiles], and
    [OsError] an error of package [os] handed on as it is. *)
Inductive error : Type :=
| ClosedWriterError
| FileOpenError (path : string) (cause : oserror)
| ReadDirError (cause : oserror)
| OsError (e : oserror).

Definition oserror_message (e : oserror) : string :=
  match e with
  | ErrInvalid => "invalid argument"
  | ErrClosed => "file already closed"
  | Errno msg => msg
  end.

Definition error_message (e : error) : string :=
  match e with
  | ClosedWriterError => "target io.Writer is closed"
  | FileOpenError path cause => "failed to open file " +:+ path +:+ ": " +:+ oserror_message cause
  | ReadDirError cause => "can't read log file directory: " +:+ oserror_message cause
  | OsError e => oserror_message e
  end.

(** ** The operating system *)

Abbreviation handle := nat.

Record fdesc : Type := mkFdesc { fd_path : string; fd_open : bool }.

(** A call made to the operating system or to the Go runtime. *)
Inductive event : Type :=
| EvOpen (path : string)
| EvClose (h : handle)
| EvWrite (h : handle) (p : list Byte.byte)
| EvGo
| EvReadDir (path : string)
| EvRemove (path : string).

Record OS : Type := mkOS { fds : list fdesc; events : list event }.

(** What the clock and the operating system answer during one [Write] or
    [Close]: the reading of [time.Now().UnixNano()], and whether closing an
    open file, opening a file, or writing to an open file fails. *)
Record env : Type := mkEnv {
  now : Z;
  closeErr : option oserror;
  openErr : option oserror;
  writeErr : option (Z * oserror)
}.

Definition emit (ev : event) (os : OS) : OS :=
  {| fds := fds os; events := events os ++ [ev] |}.

(** [Close] of [os.File] on a non-nil file: the first call releases the
    descriptor whatever it returns, every later call returns [ErrClosed]. *)
Definition File_Close (h : handle) (e : env) (os : OS) : OS * option oserror :=
  match fds os !! h with
  | Some d =>
      if fd_open d
      then ({| fds := <[h := {| fd_path := fd_path d; fd_open := false |}]> (fds os);
               events := events os ++ [EvClose h] |}, closeErr e)
      else (emit (EvClose h) os, Some ErrClosed)
  | None => (emit (EvClose h) os, Some ErrClosed)
  end.

(** [os.OpenFile(path, O_CREATE|O_APPEND|O_WRONLY, 0644)]: a new handle. *)
Definition OpenFile (path : string) (e : env) (os : OS) : OS * (oserror + handle) :=
  match openErr e with
  | Some err => (emit (EvOpen path) os, inl err)
  | None =>
      ({| fds := fds os ++ [{| fd_path := path; fd_open := true |}];
          events := events os ++ [EvOpen path] |}, inr (length (fds os)))
  end.

(** [Write] of [os.File]: a nil receiver returns [ErrInvalid] and a closed file
    [ErrClosed], both without touching the file system. *)
Definition File_Write (f : option handle) (p : list Byte.byte) (e : env) (os : OS)
  : OS * (Z * option error) :=
  match f with
  | None => (os, (0, Some (OsError ErrInvalid)))
  | Some h =>
      match fds os !! h with
      | Some d =>
          if fd_open d
          then match writeErr e with
               | None => (emit (EvWrite h p) os, (Z.of_nat (length p), None))
               | Some (n, err) => (emit (EvWrite h p) os, (n, Some (OsError err)))
               end
          else (os, (0, Some (OsError ErrClosed)))
      | None => (os, (0, Some (OsError ErrClosed)))
      end
  end.

(** A value of the interface type [io.Writer] as [getFileHandler] builds it:
    the nil interface, or an interface that holds a pointer to [os.File], which may
    itself be a nil pointer. [return tw.outFile, nil] converts the field, of
    type pointer to [os.File], and so always gives [WFile]; only [return nil, err]
    gives [WNil]. The test [fh == nil] of [Write] holds for [WNil] alone. *)
Inductive Writer : Type :=
| WNil
| WFile (f : option handle).

(** ** Go's standard library *)

Record FileInfo : Type := mkFileInfo { Name : string; Size : Z }.

Record logInfo : Type := mkLogInfo { timestamp : Z; info : FileInfo }.

(** [time_Format layout t] is [time.Unix(0, t).Format(layout)] (local time),
    [time_Parse layout s] is [time.Parse(layout, s)] as nanoseconds since the
    epoch ([None] for an error), [sort_Sort less l] is [sort.Sort] with
    [Less(i, j) = less l[i] l[j]]. *)
Class GoLib : Type := {
  time_Format : string -> Z -> string;
  time_Parse : string -> string -> option Z;
  filepath_Join : string -> string -> string;
  filepath_Split : string -> string * string;
  sort_Sort : (logInfo -> logInfo -> bool) -> list logInfo -> list logInfo
}.

(** ** The writer *)

Record DateRotator : Type := mkDateRotator {
  timeDiffToUTC : Z;
  lastTime : Z;
  period : Z;
  maxAge : Z;
  logPath : string;
  filename : string;
  outFile : option handle;
  logFileTimeFormat : string;
  ext : string
}.

(** What [os.Executable], [os.Stat], [os.MkdirAll] and [time.Now().Zone()]
    answer during [NewDateRotator]. [statErr] is [None] when [os.Stat]
    succeeds and [Some b] when it fails, [b] being [os.IsNotExist(err)]. *)
Record ctorEnv : Type := mkCtorEnv {
  executable : oserror + string;
  statErr : option bool;
  mkdirErr : option oserror;
  zoneOffset : Z
}.

Section Rotator.
Context `{GoLib}.

(** [NewDateRotator] (lines 28-53). An error of [os.Stat] other than "does
    not exist" is ignored, as in the source. *)
Definition NewDateRotator (c : ctorEnv) (directory format ext0 : string) (maxAge0 : Z)
  : error + DateRotator :=
  match executable c with
  | inl err => inl (OsError err)
  | inr absolutePath =>
      let dir := fst (filepath_Split absolutePath) in
      let logPath0 := filepath_Join dir directory in
      let mk :=
        {| timeDiffToUTC := mul64 (zoneOffset c) 1000000000;
           lastTime := 0;
           period := day_ns;
           maxAge := maxAge0;
           logPath := logPath0;
           filename := "";
           outFile := None;
           logFileTimeFormat := format;
           ext := ext0 |} in
      match statErr c with
      | Some true =>
          match mkdirErr c with
          | Some err => inl (OsError err)
          | None => inr mk
          end
      | _ => inr mk
      end
  end.

(** [current] of [getFileHandler]: the start of the bucket of [nowUnixNano]. *)
Definition bucketStart (tw : DateRotator) (nowUnixNano : Z) : Z :=
  sub64 nowUnixNano (Z.rem (add64 nowUnixNano (timeDiffToUTC tw)) (period tw)).

(** The name of the file of the bucket that starts at [current]. *)
Definition bucketFile (tw : DateRotator) (current : Z) : string :=
  time_Format (logFileTimeFormat tw) current +:+ ext tw.

(** [getFileHandler] (lines 71-105). [None] is the run-time panic of [%]
    when [period] is zero. On the two early returns and on the two error
    returns the writer is the one it was given: no field is assigned before
    the file has been opened (lines 96-98). *)
Definition getFileHandler (tw : DateRotator) (e : env) (os : OS)
  : option (DateRotator * OS * (Writer * option error)) :=
  if period tw =? 0 then None else
  let current := bucketStart tw (now e) in
  if sub64 current (lastTime tw) <? period tw
  then Some (tw, os, (WFile (outFile tw), None))
  else
    let logfile := bucketFile tw current in
    if String.eqb (filename tw) logfile
    then Some (tw, os, (WFile (outFile tw), None))
    else
      let '(os1, cerr) :=
        match outFile tw with
        | Some h => File_Close h e os
        | None => (os, None)
        end in
      match cerr with
      | Some err => Some (tw, os1, (WNil, Some (OsError err)))
      | None =>
          let path := filepath_Join (logPath tw) logfile in
          match OpenFile path e os1 with
          | (os2, inl err) => Some (tw, os2, (WNil, Some (FileOpenError path err)))
          | (os2, inr fh) =>
              Some ({| timeDiffToUTC := timeDiffToUTC tw;
                       lastTime := current;
                       period := period tw;
                       maxAge := maxAge tw;
                       logPath := logPath tw;
                       filename := logfile;
                       outFile := Some fh;
                       logFileTimeFormat := logFileTimeFormat tw;
                       ext := ext tw |},
                    emit EvGo os2, (WFile (Some fh), None))
          end
      end.

(** [Write] (lines 55-69): the error of [getFileHandler] first, then the
    test [fh == nil], then [fh.Write(p)]. *)
Definition Write (tw : DateRotator) (p : list Byte.byte) (e : env) (os : OS)
  : option (DateRotator * OS * (Z * option error)) :=
  match getFileHandler tw e os with
  | None => None
  | Some (tw1, os1, (_, Some err)) => Some (tw1, os1, (0, Some err))
  | Some (tw1, os1, (WNil, None)) => Some (tw1, os1, (0, Some ClosedWriterError))
  | Some (tw1, os1, (WFile f, None)) =>
      let '(os2, r) := File_Write f p e os1 in Some (tw1, os2, r)
  end.

(** [Close] (lines 107-119): the field is cleared only after a close that
    returned no error. *)
Definition Close (tw : DateRotator) (e : env) (os : OS) : DateRotator * OS * option error :=
  match outFile tw with
  | Some h =>
      match File_Close h e os with
      | (os1, Some err) => (tw, os1, Some (OsError err))
      | (os1, None) =>
          ({| timeDiffToUTC := timeDiffToUTC tw;
              lastTime := lastTime tw;
              period := period tw;
              maxAge := maxAge tw;
              logPath := logPath tw;
              filename := filename tw;
              outFile := None;
              logFileTimeFormat := logFileTimeFormat tw;
              ext := ext tw |}, os1, None)
      end
  | None => (tw, os, None)
  end.

(** *** Sequences of operations *)

Inductive op : Type :=
| OpWrite (p : list Byte.byte) (e : env)
| OpClose (e : env).

Inductive ret : Type :=
| RetWrite (n : Z) (err : option error)
| RetClose (err : option error).

Definition op_env (o : op) : env :=
  match o with
  | OpWrite _ e => e
  | OpClose e => e
  end.

Definition step (tw : DateRotator) (os : OS) (o : op) : option (DateRotator * OS * ret) :=
  match o with
  | OpWrite p e =>
      match Write tw p e os with
      | Some (tw1, os1, (n, err)) => Some (tw1, os1, RetWrite n err)
      | None => None
      end
  | OpClose e =>
      let '(tw1, os1, err) := Close tw e os in Some (tw1, os1, RetClose err)
  end.

Fixpoint run (tw : DateRotator) (os : OS) (ops : list op)
  : option (DateRotator * OS * list ret) :=
  match ops with
  | [] => Some (tw, os, [])
  | o :: rest =>
      match step tw os o with
      | None => None
      | Some (tw1, os1, r) =>
          match run tw1 os1 rest with
          | None => None
          | Some (tw2, os2, rs) => Some (tw2, os2, r :: rs)
          end
      end
  end.

End Rotator.

(** ** The retention sweep *)

(** A directory entry as [os.ReadDir] returns it; [de_Info] is [None] when
    [entry.Info()] returns an error. *)
Record DirEntry : Type := mkDirEntry {
  de_Name : string;
  de_IsDir : bool;
  de_Info : option FileInfo
}.

(** What the clock and the operating system answer during one sweep: the
    instant [time.Now()] in nanoseconds since the epoch, the result of
    [os.ReadDir], and the result of [os.Remove] on each path. *)
Record sweepEnv : Type := mkSweepEnv {
  sw_now : Z;
  readDir : oserror + list DirEntry;
  removeErr : string -> option oserror
}.

(** [strings.HasSuffix]. *)
Definition HasSuffix (s suffix : string) : bool :=
  (String.length suffix <=? String.length s)%nat
  && String.eqb (substring (String.length s - String.length suffix) (String.length suffix) s) suffix.

(** [Less] of [byFormatTime] (lines 197-199):
    [b[i].timestamp.After(b[j].timestamp)]. *)
Definition byFormatTime_Less (a b : logInfo) : bool := timestamp b <? timestamp a.

Section Sweeper.
Context `{GoLib}.

(** [timeFromName] (lines 178-184); [None] is an error. *)
Definition timeFromName (tw : DateRotator) (name : string) : option Z :=
  if negb (HasSuffix name (ext tw)) then None
  else
    let ts := substring 0 (String.length name - String.length (ext tw)) name in
    time_Parse (logFileTimeFormat tw) ts.

(** The loop of [oldLogFiles] over the directory entries (lines 161-171). *)
Fixpoint logFilesOf (tw : DateRotator) (dirEntries : list DirEntry) : list logInfo :=
  match dirEntries with
  | [] => []
  | entry :: rest =>
      if de_IsDir entry then logFilesOf tw rest
      else
        match timeFromName tw (de_Name entry) with
        | Some t =>
            match de_Info entry with
            | Some f => {| timestamp := t; info := f |} :: logFilesOf tw rest
            | None => logFilesOf tw rest
            end
        | None => logFilesOf tw rest
        end
  end.

(** [oldLogFiles] (lines 154-176). *)
Definition oldLogFiles (tw : DateRotator) (se : sweepEnv) : list event * (error + list logInfo) :=
  match readDir se with
  | inl err => ([EvReadDir (logPath tw)], inl (ReadDirError err))
  | inr dirEntries =>
      ([EvReadDir (logPath tw)], inr (sort_Sort byFormatTime_Less (logFilesOf tw dirEntries)))
  end.

(** [cutoff] of [cleanRunOnce]: [time.Now().Local().Add(-diff)] with
    [diff = time.Duration(int64(24*time.Hour) * tw.maxAge)]. *)
Definition cutoffOf (tw : DateRotator) (se : sweepEnv) : Z :=
  sw_now se + neg64 (mul64 day_ns (maxAge tw)).

(** The last loop of [cleanRunOnce] (lines 143-148), [err] being the variable
    of that name: it is assigned only while it is nil. *)
Fixpoint removeAll (tw : DateRotator) (se : sweepEnv) (remove : list logInfo) (err : option error)
  : list event * option error :=
  match remove with
  | [] => ([], err)
  | f :: rest =>
      let path := filepath_Join (logPath tw) (Name (info f)) in
      let err1 :=
        match err, removeErr se path with
        | None, Some errRemove => Some (OsError errRemove)
        | _, _ => err
        end in
      let '(evs, r) := removeAll tw se rest err1 in
      (EvRemove path :: evs, r)
  end.

(** [cleanRunOnce] (lines 121-151). *)
Definition cleanRunOnce (tw : DateRotator) (se : sweepEnv) : list event * option error :=
  if maxAge tw =? 0 then ([], None)
  else
    match oldLogFiles tw se with
    | (evs, inl err) => (evs, Some err)
    | (evs, inr files) =>
        let remove :=
          if 0 <? maxAge tw
          then List.filter (fun f => timestamp f <? cutoffOf tw se) files
          else [] in
        let '(evs1, err) := removeAll tw se remove None in
        (evs ++ evs1, err)
    end.

End Sweeper.

(** ** An instance of the library, for concrete runs

    Dates are formatted and parsed for the layout ["2006-01-02"] in UTC, the
    only layout the concrete runs below use; paths use ["/"]. *)

Module Demo.

(** Days since 1970-01-01 to (year, month, day), proleptic Gregorian. *)
Definition civil_of_days (z : Z) : Z * Z * Z :=
  let z1 := z + 719468 in
  let era := z1 / 146097 in
  let doe := z1 - era * 146097 in
  let yoe := (doe - doe / 1460 + doe / 36524 - doe / 146096) / 365 in
  let doy := doe - (365 * yoe + yoe / 4 - yoe / 100) in
  let mp := (5 * doy + 2) / 153 in
  let d := doy - (153 * mp + 2) / 5 + 1 in
  let m := if mp <? 10 then mp + 3 else mp - 9 in
  let y := yoe + era * 400 in
  (if m <=? 2 then y + 1 else y, m, d).

Definition days_of_civil (y m d : Z) : Z :=
  let y1 := if m <=? 2 then y - 1 else y in
  let era := y1 / 400 in
  let yoe := y1 - era * 400 in
  let mp := (m + 9) mod 12 in
  let doy := (153 * mp + 2) / 5 + d - 1 in
  let doe := yoe * 365 + yoe / 4 - yoe / 100 + doy in
  era * 146097 + doe - 719468.

Definition pad (width : nat) (n : Z) : string :=
  let s := pretty (Z.to_N n) in
  String.concat "" (replicate (width - String.length s) "0") +:+ s.

Definition format_date (t : Z) : string :=
  let '(y, m, d) := civil_of_days (t / day_ns) in
  pad 4 y +:+ "-" +:+ pad 2 m +:+ "-" +:+ pad 2 d.

Definition digit_of (c : ascii) : option Z :=
  let n := Z.of_nat (nat_of_ascii c) in
  if (48 <=? n) && (n <=? 57) then Some (n - 48) else None.

Fixpoint number_of (acc : Z) (s : string) : option Z :=
  match s with
  | EmptyString => Some acc
  | String c rest =>
      match digit_of c with
      | Some d => number_of (10 * acc + d) rest
      | None => None
      end
  end.

Definition parse_date (s : string) : option Z :=
  match number_of 0 (substring 0 4 s), number_of 0 (substring 5 2 s), number_of 0 (substring 8 2 s) with
  | Some y, Some m, Some d =>
      let t := days_of_civil y m d * day_ns in
      if String.eqb (format_date t) s then Some t else None
  | _, _, _ => None
  end.

Definition Format (layout : string) (t : Z) : string :=
  if String.eqb layout "2006-01-02" then format_date t else layout.

Definition Parse (layout value : string) : option Z :=
  if String.eqb layout "2006-01-02" then parse_date value else None.

Definition ends_with_slash (s : string) : bool := HasSuffix s "/".

Definition Join (a b : string) : string :=
  if ends_with_slash a then a +:+ b else a +:+ "/" +:+ b.

Fixpoint Split (path : string) : string * string :=
  match path with
  | EmptyString => ("", "")
  | String c rest =>
      let '(dir, file) := Split rest in
      match dir with
      | EmptyString => if Ascii.eqb c "/" then ("/", file) else ("", String c file)
      | _ => (String c dir, file)
      end
  end.

Fixpoint insert_by (less : logInfo -> logInfo -> bool) (x : logInfo) (l : list logInfo) : list logInfo :=
  match l with
  | [] => [x]
  | y :: rest => if less y x then y :: insert_by less x rest else x :: y :: rest
  end.

Definition Sort (less : logInfo -> logInfo -> bool) (l : list logInfo) : list logInfo :=
  foldr (insert_by less) [] l.

#[export] Instance lib : GoLib := {|
  time_Format := Format;
  time_Parse := Parse;
  filepath_Join := Join;
  filepath_Split := Split;
  sort_Sort := Sort
|}.

(** 2026-11-01T00:00:00Z in nanoseconds since the epoch. *)
Definition t0 : Z := 20758 * day_ns.

Definition hour_ns : Z := 3600000000000.

Definition ctor : ctorEnv :=
  {| executable := inr "/opt/app/server"; statErr := None; mkdirErr := None; zoneOffset := 0 |}.

(** The writer [NewDateRotator("logs", "2006-01-02", ".log", 7)] returns. *)
Definition tw0 : DateRotator :=
  {| timeDiffToUTC := 0; lastTime := 0; period := day_ns; maxAge := 7;
     logPath := "/opt/app/logs"; filename := ""; outFile := None;
     logFileTimeFormat := "2006-01-02"; ext := ".log" |}.

Definition os0 : OS := {| fds := []; events := [] |}.

(** An environment in which nothing fails. *)
Definition at_ (t : Z) : env :=
  {| now := t; closeErr := None; openErr := None; writeErr := None |}.

(** Environments in which one call fails. *)
Definition fail_open (t : Z) : env :=
  {| now := t; closeErr := None; openErr := Some (Errno "permission denied"); writeErr := None |}.

Definition fail_close (t : Z) : env :=
  {| now := t; closeErr := Some (Errno "input/output error"); openErr := None; writeErr := None |}.

Definition hello : list Byte.byte := [Byte.x68; Byte.x69].

(** The writer and the file table after two writes on 2026-11-02. *)
Definition tw_nov2 : DateRotator :=
  {| timeDiffToUTC := 0; lastTime := t0 + day_ns; period := day_ns; maxAge := 7;
     logPath := "/opt/app/logs"; filename := "2026-11-02.log"; outFile := Some 0%nat;
     logFileTimeFormat := "2006-01-02"; ext := ".log" |}.

Definition os_nov2 : OS :=
  {| fds := [{| fd_path := "/opt/app/logs/2026-11-02.log"; fd_open := true |}];
     events := [EvOpen "/opt/app/logs/2026-11-02.log"; EvGo; EvWrite 0 hello; EvWrite 0 hello] |}.

(** A directory whose removals fail, each with an error of its own. *)
Definition busy (path : string) : option oserror :=
  if String.eqb path "/opt/app/logs/2026-10-02.log" then Some (Errno "text file busy")
  else if String.eqb path "/opt/app/logs/2026-10-01.log" then Some (Errno "permission denied")
  else None.

Definition file (name : string) : DirEntry :=
  {| de_Name := name; de_IsDir := false; de_Info := Some {| Name := name; Size := 2 |} |}.

(** The writer and the file table after [Close] on [tw_nov2]. *)
Definition tw_closed : DateRotator :=
  {| timeDiffToUTC := 0; lastTime := t0 + day_ns; period := day_ns; maxAge := 7;
     logPath := "/opt/app/logs"; filename := "2026-11-02.log"; outFile := None;
     logFileTimeFormat := "2006-01-02"; ext := ".log" |}.

Definition os_closed : OS :=
  {| fds := [{| fd_path := "/opt/app/logs/2026-11-02.log"; fd_open := false |}];
     events := [EvOpen "/opt/app/logs/2026-11-02.log"; EvGo; EvWrite 0 hello; EvWrite 0 hello;
                EvClose 0] |}.

(** The writer [NewDateRotator("logs", "2006-01-02", ".log", -1)] returns. *)
Definition tw_neg : DateRotator :=
  {| timeDiffToUTC := 0; lastTime := 0; period := day_ns; maxAge := -1;
     logPath := "/opt/app/logs"; filename := ""; outFile := None;
     logFileTimeFormat := "2006-01-02"; ext := ".log" |}.

(** A sweep at 2026-11-01T00:00:00Z over files of 8, 7 and 6 days before. *)
Definition se_midnight : sweepEnv :=
  {| sw_now := t0;
     readDir := inr [file "2026-10-24.log"; file "2026-10-25.log"; file "2026-10-26.log";
                     file "notes.txt"];
     removeErr := fun _ => None |}.

(** A sweep at 2026-11-01T01:00:00Z in which both removals fail. *)
Definition se_busy : sweepEnv :=
  {| sw_now := t0 + hour_ns;
     readDir := inr [file "2026-10-01.log"; file "2026-10-02.log"; file "2026-10-31.log"];
     removeErr := busy |}.

(** A sweep over a directory that cannot be listed. *)
Definition se_unreadable : sweepEnv :=
  {| sw_now := t0;
     readDir := inl (Errno "no such file or directory");
     removeErr := fun _ => None |}.

End Demo.


(** ** Log levels (log.go) *)

(** [Level] is Go's [int]; the constants are those of the [iota] block
    (lines 49-57). *)
Abbreviation Level := Z.

Definition LevelTrace : Level := 0.
Definition LevelDebug : Level := 1.
Definition LevelInfo : Level := 2.
Definition LevelNotice : Level := 3.
Definition LevelWarn : Level := 4.
Definition LevelError : Level := 5.
Definition LevelFatal : Level := 6.

(** [strs] (lines 59-67). *)
Definition strs : list string :=
  ["[Trace] "; "[Debug] "; "[Info] "; "[Notice] "; "[Warn] "; "[Error] "; "[Fatal] "].

(** [toString] (lines 69-74). [None] is the run-time panic of an index out
    of range; [fmt.Sprintf("[?%d] ", lv)] prints [lv] in decimal, with a
    minus sign when it is negative. *)
Definition toString (lv : Level) : option string :=
  if (LevelTrace <=? lv) && (lv <=? LevelFatal)
  then strs !! Z.to_nat lv
  else Some ("[?" +:+ pretty lv +:+ "] ").

(** ** Vocabulary of the statements *)

Definition paths (os : OS) : list string := fd_path <$> fds os.

(** The clock reads a date from the epoch up to two periods before the last
    instant an [int64] of nanoseconds can hold (the year 2262). *)
Definition clockInRange (e : env) : Prop := 0 <= now e <= int64_max - 2 * day_ns.

(** The bounds the recorded bucket start keeps while the clock is in range. *)
Definition TimeInv (tw : DateRotator) : Prop :=
  period tw = day_ns /\ - day_ns <= lastTime tw <= int64_max - day_ns.

(** The largest horizon, in days, whose length in nanoseconds is an [int64]. *)
Definition maxAge_max : Z := 106751.

Section Vocabulary.
Context `{GoLib}.

(** A [Write] whose clock reading is in the bucket the writer has recorded. *)
Definition sameBucketWrite (tw : DateRotator) (o : op) : Prop :=
  match o with
  | OpWrite _ e => sub64 (bucketStart tw (now e)) (lastTime tw) < period tw
  | OpClose _ => False
  end.

(** An event that writes to the handle the writer holds. *)
Definition writesTo (tw : DateRotator) (ev : event) : Prop :=
  exists h p, outFile tw = Some h /\ ev = EvWrite h p.

(** The two tests of [getFileHandler] both send it to the rotation: the
    bucket start is at least one period past the recorded one, and the name
    of its file is not the recorded one. *)
Definition rotates (tw : DateRotator) (e : env) : Prop :=
  period tw <= sub64 (bucketStart tw (now e)) (lastTime tw)
  /\ filename tw <> bucketFile tw (bucketStart tw (now e)).

(** One of the two tests returns the handle the writer holds. *)
Definition keeps (tw : DateRotator) (e : env) : Prop :=
  sub64 (bucketStart tw (now e)) (lastTime tw) < period tw
  \/ filename tw = bucketFile tw (bucketStart tw (now e)).

(** The writer after a rotation to the bucket [current] that opened [fh]. *)
Definition rotated (tw : DateRotator) (current : Z) (fh : handle) : DateRotator :=
  {| timeDiffToUTC := timeDiffToUTC tw;
     lastTime := current;
     period := period tw;
     maxAge := maxAge tw;
     logPath := logPath tw;
     filename := bucketFile tw current;
     outFile := Some fh;
     logFileTimeFormat := logFileTimeFormat tw;
     ext := ext tw |}.

(** The path of the file of the bucket of the clock reading of [e]. *)
Definition bucketPath (tw : DateRotator) (e : env) : string :=
  filepath_Join (logPath tw) (bucketFile tw (bucketStart tw (now e))).

(** The invariant of the data model: a writer that holds a handle has
    recorded, as file name, the name of the file of the recorded bucket
    start; the handle was opened on that file of the log directory; and the
    recorded bucket start is the bucket start of some clock reading. *)
Definition WriterInv (tw : DateRotator) (os : OS) : Prop :=
  forall h, outFile tw = Some h ->
    filename tw = bucketFile tw (lastTime tw)
    /\ paths os !! h = Some (filepath_Join (logPath tw) (filename tw))
    /\ exists t, lastTime tw = bucketStart tw t.

(** The path [cleanRunOnce] removes for a log file. *)
Definition removePath (tw : DateRotator) (f : logInfo) : string :=
  filepath_Join (logPath tw) (Name (info f)).

(** The files [cleanRunOnce] removes when the horizon is positive, in the
    order in which it removes them. *)
Definition candidates (tw : DateRotator) (se : sweepEnv) (dirEntries : list DirEntry) : list logInfo :=
  List.filter (fun f => timestamp f <? cutoffOf tw se)
    (sort_Sort byFormatTime_Less (logFilesOf tw dirEntries)).

(** The error of the first removal that fails, if any. *)
Definition firstRemoveError (tw : DateRotator) (se : sweepEnv) (remove : list logInfo) : option error :=
  head (omap (fun f => OsError <$> removeErr se (removePath tw f)) remove).

(** The error of the last removal that fails, if any. *)
Definition lastRemoveError (tw : DateRotator) (se : sweepEnv) (remove : list logInfo) : option error :=
  last (omap (fun f => OsError <$> removeErr se (removePath tw f)) remove).

End Vocabulary.

(** ** Further vocabulary *)

(** The file table after [Close] has been called on the handle [h]. *)
Definition closed_at (h : handle) (l : list fdesc) : list fdesc :=
  match l !! h with
  | Some d => <[h := {| fd_path := fd_path d; fd_open := false |}]> l
  | None => l
  end.

(** A clock reading [t] that, shifted by the zone of the writer, is a date
    from the epoch on, none of the two being beyond [int64]. *)
Definition civilClock (tw : DateRotator) (t : Z) : Prop :=
  0 <= t <= int64_max /\ 0 <= t + timeDiffToUTC tw <= int64_max.

(** An instant at a local midnight of the writer. *)
Definition aligned (tw : DateRotator) (t : Z) : Prop :=
  (t + timeDiffToUTC tw) mod day_ns = 0.

(** The fields of the writer that no operation assigns. *)
Definition sameConfig (tw tw1 : DateRotator) : Prop :=
  timeDiffToUTC tw1 = timeDiffToUTC tw
  /\ period tw1 = period tw
  /\ maxAge tw1 = maxAge tw
  /\ logPath tw1 = logPath tw
  /\ logFileTimeFormat tw1 = logFileTimeFormat tw
  /\ ext tw1 = ext tw.

(** Every file of the table from index [n0] on that is open is the one the
    writer holds. *)
Definition NoLeak (n0 : nat) (tw : DateRotator) (os : OS) : Prop :=
  forall h d, (n0 <= h)%nat -> fds os !! h = Some d -> fd_open d = true -> outFile tw = Some h.

(** The writer holds no handle below [n0], and the first [n0] entries of
    the file table are those of [l0]. *)
Definition Foreign (n0 : nat) (l0 : list fdesc) (tw : DateRotator) (os : OS) : Prop :=
  (forall h, outFile tw = Some h -> (n0 <= h < length (fds os))%nat)
  /\ take n0 (fds os) = l0.

(** ** Further concrete states *)

Module DemoMore.

(** A write on 2026-11-01, a close, a write on 2026-11-02. *)
Definition ops3 : list op :=
  [OpWrite Demo.hello (Demo.at_ (Demo.t0 + Demo.hour_ns));
   OpClose (Demo.at_ (Demo.t0 + 2 * Demo.hour_ns));
   OpWrite Demo.hello (Demo.at_ (Demo.t0 + 25 * Demo.hour_ns))].

Definition rets3 : list ret := [RetWrite 2 None; RetClose None; RetWrite 2 None].

(** A file table in which another part of the program holds an open file. *)
Definition os_other : OS :=
  {| fds := [{| fd_path := "/var/lib/app/data.db"; fd_open := true |}]; events := [] |}.

(** The writer and the file table after [ops3] from [Demo.tw0] and
    [os_other]. *)
Definition tw_after3 : DateRotator :=
  {| timeDiffToUTC := 0; lastTime := Demo.t0 + day_ns; period := day_ns; maxAge := 7;
     logPath := "/opt/app/logs"; filename := "2026-11-02.log"; outFile := Some 2%nat;
     logFileTimeFormat := "2006-01-02"; ext := ".log" |}.

Definition os_after3 : OS :=
  {| fds := [{| fd_path := "/var/lib/app/data.db"; fd_open := true |};
             {| fd_path := "/opt/app/logs/2026-11-01.log"; fd_open := false |};
             {| fd_path := "/opt/app/logs/2026-11-02.log"; fd_open := true |}];
     events := [EvOpen "/opt/app/logs/2026-11-01.log"; EvGo; EvWrite 1 Demo.hello; EvClose 1;
                EvOpen "/opt/app/logs/2026-11-02.log"; EvGo; EvWrite 2 Demo.hello] |}.

(** The writer [NewDateRotator("logs", "", "", 7)] returns. *)
Definition tw_empty : DateRotator :=
  {| timeDiffToUTC := 0; lastTime := 0; period := day_ns; maxAge := 7;
     logPath := "/opt/app/logs"; filename := ""; outFile := None;
     logFileTimeFormat := ""; ext := "" |}.

(** A writer with a horizon of 106752 days. *)
Definition tw_long : DateRotator :=
  {| timeDiffToUTC := 0; lastTime := 0; period := day_ns; maxAge := 106752;
     logPath := "/opt/app/logs"; filename := ""; outFile := None;
     logFileTimeFormat := "2006-01-02"; ext := ".log" |}.

End DemoMore.
Example Demo_ctor :
  NewDateRotator (H := Demo.lib) Demo.ctor "logs" "2006-01-02" ".log" 7 = inr Demo.tw0.
Proof. vm_compute. reflexivity. Qed.

Example Demo_format : Demo.Format "2006-01-02" (Demo.t0 + 5 * Demo.hour_ns) = "2026-11-01".
Proof. vm_compute. reflexivity. Qed.

Example Demo_parse : Demo.Parse "2006-01-02" "2026-10-25" = Some (Demo.t0 - 7 * day_ns).
Proof. vm_compute. reflexivity. Qed.

Example Demo_parse_bad : Demo.Parse "2006-01-02" "2026-02-30" = None.
Proof. vm_compute. reflexivity. Qed.


Example Demo_timeFromName_other : timeFromName (H := Demo.lib) Demo.tw0 "notes.txt" = None.
Proof. vm_compute. reflexivity. Qed.

Example Demo_split : Demo.Split "/opt/app/server" = ("/opt/app/", "server").
Proof. vm_compute. reflexivity. Qed.

(** With the zone of UTC+8, the bucket of 2026-11-01T01:00:00Z starts at
    2026-10-31T16:00:00Z, the local midnight. *)
Example bucketStart_utc8 :
  bucketStart
    {| timeDiffToUTC := 8 * Demo.hour_ns; lastTime := 0; period := day_ns; maxAge := 0;
       logPath := ""; filename := ""; outFile := None; logFileTimeFormat := ""; ext := "" |}
    (Demo.t0 + Demo.hour_ns)
  = Demo.t0 - 8 * Demo.hour_ns.
Proof. vm_compute. reflexivity. Qed.

(** Go's [%] takes the sign of the dividend: before the epoch the bucket
    "start" lies after the clock reading. *)
Example bucketStart_before_epoch :
  bucketStart Demo.tw0 (- Demo.hour_ns) = 0.
Proof. vm_compute. reflexivity. Qed.

(** 106752 days in nanoseconds are not an [int64]. *)
Example mul64_wraps : mul64 day_ns (maxAge_max + 1) = -9223371273709551616.
Proof. vm_compute. reflexivity. Qed.
(** * Properties *)

(** ** Arithmetic of [int64] *)

Lemma wrap64_id (z : Z) : int64_min <= z <= int64_max -> wrap64 z = z.
Proof.
  unfold int64_min, int64_max, wrap64. intros Hz.
  rewrite Z.mod_small by lia. lia.
Qed.

Lemma wrap64_range (z : Z) : int64_min <= wrap64 z <= int64_max.
Proof.
  unfold int64_min, int64_max, wrap64.
  pose proof (Z.mod_pos_bound (z + 9223372036854775808) 18446744073709551616 eq_refl). lia.
Qed.

Lemma rem_day_bound (a : Z) : - day_ns < Z.rem a day_ns < day_ns.
Proof.
  unfold day_ns.
  destruct (Z_le_gt_dec 0 a) as [Ha | Ha].
  - pose proof (Z.rem_bound_pos a 86400000000000 Ha eq_refl). lia.
  - pose proof (Z.rem_bound_pos (- a) 86400000000000 ltac:(lia) eq_refl) as Hb.
    rewrite Z.rem_opp_l in Hb by lia. lia.
Qed.

(** ** The file table *)

Lemma File_Write_fds (f : option handle) (p : list Byte.byte) (e : env) (os : OS) :
  fds (File_Write f p e os).1 = fds os.
Proof.
  unfold File_Write. destruct f as [h|]; [|done].
  destruct (fds os !! h) as [d|]; [|done].
  destruct (fd_open d); [|done].
  destruct (writeErr e) as [[n err]|]; done.
Qed.

Lemma File_Write_events (f : option handle) (p : list Byte.byte) (e : env) (os : OS) :
  events (File_Write f p e os).1 = events os
  \/ exists h, f = Some h /\ events (File_Write f p e os).1 = events os ++ [EvWrite h p].
Proof.
  unfold File_Write. destruct f as [h|]; [|by left].
  destruct (fds os !! h) as [d|]; [|by left].
  destruct (fd_open d); [|by left].
  right. exists h. destruct (writeErr e) as [[n err]|]; done.
Qed.

Section RotatorFacts.
Context `{GoLib}.

(** The hot path of [getFileHandler], as an equation. *)
Lemma getFileHandler_hot (tw : DateRotator) (e : env) (os : OS) :
  period tw <> 0 ->
  sub64 (bucketStart tw (now e)) (lastTime tw) < period tw ->
  getFileHandler tw e os = Some (tw, os, (WFile (outFile tw), None)).
Proof.
  intros Hp Hlt. unfold getFileHandler.
  destruct (Z.eqb_spec (period tw) 0) as [|_]; [done|].
  destruct (Z.ltb_spec (sub64 (bucketStart tw (now e)) (lastTime tw)) (period tw)); [done | lia].
Qed.

Lemma Write_hot (tw : DateRotator) (p : list Byte.byte) (e : env) (os : OS) :
  period tw <> 0 ->
  sub64 (bucketStart tw (now e)) (lastTime tw) < period tw ->
  Write tw p e os =
    Some (tw, (File_Write (outFile tw) p e os).1, (File_Write (outFile tw) p e os).2).
Proof.
  intros Hp Hlt. unfold Write. rewrite getFileHandler_hot by done.
  by destruct (File_Write (outFile tw) p e os).
Qed.

Lemma run_hot (tw : DateRotator) (ops : list op) : forall os : OS,
  period tw <> 0 ->
  Forall (sameBucketWrite tw) ops ->
  exists os1 rets evs,
    run tw os ops = Some (tw, os1, rets)
    /\ fds os1 = fds os
    /\ events os1 = events os ++ evs
    /\ Forall (writesTo tw) evs.
Proof.
  induction ops as [|o ops IH]; intros os Hp Hall.
  - exists os, [], []. simpl. by rewrite app_nil_r.
  - inversion Hall as [|? ? Ho Hrest]; subst.
    destruct o as [p e|e]; [|done]. simpl in Ho.
    destruct (IH (File_Write (outFile tw) p e os).1 Hp Hrest) as (os1 & rets & evs & Hrun & Hfds & Hev & Hw).
    simpl. rewrite Write_hot by done.
    destruct (File_Write (outFile tw) p e os).2 as [n err] eqn:Hr.
    rewrite Hrun.
    eexists os1, _. 
    destruct (File_Write_events (outFile tw) p e os) as [Hsame | (h & Hh & Happ)].
    + exists evs. split; [done|]. rewrite Hfds, File_Write_fds, Hev, Hsame. done.
    + exists (EvWrite h p :: evs). split; [done|].
      rewrite Hfds, File_Write_fds, Hev, Happ, <- app_assoc. simpl.
      repeat split; [done..|]. constructor; [|done]. by exists h, p.
Qed.

(** C1. When the bucket start computed for the clock reading is less than
    one period past the recorded one, the rotation decision returns the
    handle the writer holds, leaves the writer as it is and makes no call to
    the operating system: the file table and the recorded calls are
    unchanged, so nothing is closed, opened or launched. Any sequence of such
    writes leaves the writer unchanged, and the only calls it makes are
    writes to that one handle. *)
Theorem C1_same_bucket_reuses_handle (tw : DateRotator) (e : env) (os : OS) (ops : list op) :
  period tw <> 0 ->
  sub64 (bucketStart tw (now e)) (lastTime tw) < period tw ->
  Forall (sameBucketWrite tw) ops ->
  getFileHandler tw e os = Some (tw, os, (WFile (outFile tw), None))
  /\ exists os1 rets evs,
       run tw os ops = Some (tw, os1, rets)
       /\ fds os1 = fds os
       /\ events os1 = events os ++ evs
       /\ Forall (writesTo tw) evs.
Proof.
  intros Hp Hlt Hall. split.
  - by apply getFileHandler_hot.
  - by apply run_hot.
Qed.

End RotatorFacts.

(** ** The rotation *)

Lemma File_Close_events (h : handle) (e : env) (os : OS) :
  events (File_Close h e os).1 = events os ++ [EvClose h].
Proof.
  unfold File_Close. destruct (fds os !! h) as [d|]; [|done].
  by destruct (fd_open d).
Qed.

Lemma File_Close_paths (h : handle) (e : env) (os : OS) :
  paths (File_Close h e os).1 = paths os.
Proof.
  unfold File_Close, paths. destruct (fds os !! h) as [d|] eqn:Hd; [|done].
  destruct (fd_open d); [|done]. simpl.
  rewrite list_fmap_insert. simpl. apply list_insert_id.
  by rewrite list_lookup_fmap, Hd.
Qed.

(** Closing a file twice: the second call fails with [ErrClosed]. *)
Lemma File_Close_twice (h : handle) (e e1 : env) (os : OS) :
  (File_Close h e1 (File_Close h e os).1).2 = Some ErrClosed.
Proof.
  unfold File_Close at 2. destruct (fds os !! h) as [d|] eqn:Hd.
  - destruct (fd_open d) eqn:Ho.
    + unfold File_Close. simpl.
      rewrite list_lookup_insert_eq by (by eapply lookup_lt_Some). done.
    + unfold File_Close. simpl. by rewrite Hd, Ho.
  - unfold File_Close. simpl. by rewrite Hd.
Qed.

(** A close that returns no error leaves the handle closed in the table. *)
Lemma File_Close_ok_closed (h : handle) (e : env) (os : OS) :
  (File_Close h e os).2 = None ->
  exists d, fds (File_Close h e os).1 !! h = Some d /\ fd_open d = false.
Proof.
  unfold File_Close. destruct (fds os !! h) as [d|] eqn:Hd; [|done].
  destruct (fd_open d); [|done]. simpl. intros _.
  eexists. split; [apply list_lookup_insert_eq; by eapply lookup_lt_Some | done].
Qed.

Lemma OpenFile_ok (path : string) (e : env) (os : OS) :
  openErr e = None ->
  OpenFile path e os =
    ({| fds := fds os ++ [{| fd_path := path; fd_open := true |}];
        events := events os ++ [EvOpen path] |}, inr (length (fds os))).
Proof. intros He. unfold OpenFile. by rewrite He. Qed.

Lemma OpenFile_fail (path : string) (e : env) (os : OS) (err : oserror) :
  openErr e = Some err ->
  OpenFile path e os = (emit (EvOpen path) os, inl err).
Proof. intros He. unfold OpenFile. by rewrite He. Qed.

Lemma OpenFile_paths (path : string) (e : env) (os os1 : OS) (fh : handle) :
  OpenFile path e os = (os1, inr fh) ->
  fh = length (paths os) /\ paths os1 = paths os ++ [path].
Proof.
  unfold OpenFile, paths. destruct (openErr e); [done|].
  intros [= <- <-]. simpl. by rewrite length_fmap, fmap_app.
Qed.

Section RotationFacts.
Context `{GoLib}.

(** Past its two tests, [getFileHandler] is its rotation. *)
Lemma getFileHandler_rotate (tw : DateRotator) (e : env) (os : OS) :
  period tw <> 0 ->
  rotates tw e ->
  getFileHandler tw e os =
    let '(os1, cerr) :=
      match outFile tw with
      | Some h => File_Close h e os
      | None => (os, None)
      end in
    match cerr with
    | Some err => Some (tw, os1, (WNil, Some (OsError err)))
    | None =>
        match OpenFile (bucketPath tw e) e os1 with
        | (os2, inl err) => Some (tw, os2, (WNil, Some (FileOpenError (bucketPath tw e) err)))
        | (os2, inr fh) =>
            Some (rotated tw (bucketStart tw (now e)) fh, emit EvGo os2, (WFile (Some fh), None))
        end
    end.
Proof.
  intros Hp [Hge Hne]. unfold getFileHandler.
  destruct (Z.eqb_spec (period tw) 0) as [|_]; [done|].
  destruct (Z.ltb_spec (sub64 (bucketStart tw (now e)) (lastTime tw)) (period tw)); [lia|].
  destruct (String.eqb_spec (filename tw) (bucketFile tw (bucketStart tw (now e)))); [done|].
  reflexivity.
Qed.

(** Short of its rotation, [getFileHandler] returns the field [outFile]. *)
Lemma getFileHandler_keeps (tw : DateRotator) (e : env) (os : OS) :
  period tw <> 0 ->
  keeps tw e ->
  getFileHandler tw e os = Some (tw, os, (WFile (outFile tw), None)).
Proof.
  intros Hp Hk. unfold getFileHandler.
  destruct (Z.eqb_spec (period tw) 0) as [|_]; [done|].
  destruct (Z.ltb_spec (sub64 (bucketStart tw (now e)) (lastTime tw)) (period tw)); [done|].
  destruct (String.eqb_spec (filename tw) (bucketFile tw (bucketStart tw (now e)))); [done|].
  destruct Hk; [lia | done].
Qed.

Lemma keeps_or_rotates (tw : DateRotator) (e : env) : keeps tw e \/ rotates tw e.
Proof.
  unfold keeps, rotates.
  destruct (Z.ltb_spec (sub64 (bucketStart tw (now e)) (lastTime tw)) (period tw)); [by left; left|].
  destruct (String.eqb_spec (filename tw) (bucketFile tw (bucketStart tw (now e)))); [by left; right|].
  by right.
Qed.

(** [getFileHandler] and [Write] return whenever the period is not zero. *)
Lemma getFileHandler_total (tw : DateRotator) (e : env) (os : OS) :
  period tw <> 0 -> is_Some (getFileHandler tw e os).
Proof.
  intros Hp. destruct (keeps_or_rotates tw e) as [Hk | Hr].
  - rewrite getFileHandler_keeps by done. eauto.
  - rewrite getFileHandler_rotate by done.
    destruct (match outFile tw with Some h => File_Close h e os | None => (os, None) end) as [os1 [err|]];
      [eauto|].
    destruct (OpenFile (bucketPath tw e) e os1) as [os2 [err|fh]]; eauto.
Qed.

Lemma Write_total (tw : DateRotator) (p : list Byte.byte) (e : env) (os : OS) :
  period tw <> 0 -> is_Some (Write tw p e os).
Proof.
  intros Hp. destruct (getFileHandler_total tw e os Hp) as [[[tw2 os2] [fh gerr]] Hg].
  unfold Write. rewrite Hg.
  destruct fh as [|f], gerr as [err|]; try by eexists.
  destruct (File_Write f p e os2). by eexists.
Qed.

(** A successful [Close] leaves the writer without a handle. *)
Lemma Close_ok_outFile (tw tw1 : DateRotator) (e : env) (os os1 : OS) :
  Close tw e os = (tw1, os1, None) ->
  outFile tw1 = None /\ period tw1 = period tw /\ lastTime tw1 = lastTime tw
  /\ filename tw1 = filename tw.
Proof.
  unfold Close. destruct (outFile tw) as [h|] eqn:Hh.
  - destruct (File_Close h e os) as [os2 [err|]]; [done|]. by intros [= <- <-].
  - by intros [= <- <-].
Qed.

(** The writer without a handle, when [getFileHandler] does not rotate:
    [fh] holds the nil field, [fh == nil] is false, and [fh.Write] returns
    [ErrInvalid]. *)
Lemma Write_no_handle_keeps (tw : DateRotator) (p : list Byte.byte) (e : env) (os : OS) :
  period tw <> 0 ->
  outFile tw = None ->
  keeps tw e ->
  Write tw p e os = Some (tw, os, (0, Some (OsError ErrInvalid))).
Proof.
  intros Hp Hnone Hk. unfold Write.
  rewrite getFileHandler_keeps by done. by rewrite Hnone.
Qed.

(** C2, as amended. A [Write] after a successful [Close] whose rotation
    decision does not rotate (the bucket start is less than one period past
    the recorded one, or the name of its file is the recorded name) returns
    an error and reports zero bytes written; it leaves the writer as it is
    and makes no call to the operating system. *)
Theorem C2_write_after_close_no_rotation
    (tw tw1 : DateRotator) (e0 e : env) (os os1 : OS) (p : list Byte.byte) :
  period tw <> 0 ->
  Close tw e0 os = (tw1, os1, None) ->
  keeps tw1 e ->
  exists err, Write tw1 p e os1 = Some (tw1, os1, (0, Some err)).
Proof.
  intros Hp Hclose Hk.
  destruct (Close_ok_outFile _ _ _ _ _ Hclose) as (Hnone & Hper & _).
  exists (OsError ErrInvalid). apply Write_no_handle_keeps; [congruence | done | done].
Qed.

(** The writer without a handle, when [getFileHandler] rotates and the file
    opens. *)
Lemma Write_no_handle_rotates (tw : DateRotator) (p : list Byte.byte) (e : env) (os : OS) :
  period tw <> 0 ->
  outFile tw = None ->
  rotates tw e ->
  openErr e = None ->
  writeErr e = None ->
  Write tw p e os =
    Some (rotated tw (bucketStart tw (now e)) (length (fds os)),
          {| fds := fds os ++ [{| fd_path := bucketPath tw e; fd_open := true |}];
             events := events os ++ [EvOpen (bucketPath tw e); EvGo; EvWrite (length (fds os)) p] |},
          (Z.of_nat (length p), None)).
Proof.
  intros Hp Hnone Hr Ho Hw. unfold Write.
  rewrite getFileHandler_rotate by done. rewrite Hnone. simpl.
  rewrite OpenFile_ok by done.
  unfold File_Write, emit. simpl.
  rewrite lookup_app_r by done. rewrite Nat.sub_diag. simpl. rewrite Hw.
  by rewrite <- !app_assoc.
Qed.

(** A rotation never ends in [ClosedWriterError]. *)
Lemma Write_rotates_not_closed (tw tw1 : DateRotator) (p : list Byte.byte) (e : env) (os os1 : OS)
    (n : Z) (err : option error) :
  period tw <> 0 ->
  rotates tw e ->
  Write tw p e os = Some (tw1, os1, (n, err)) ->
  err <> Some ClosedWriterError.
Proof.
  intros Hp Hr. unfold Write. rewrite getFileHandler_rotate by done.
  destruct (match outFile tw with Some h => File_Close h e os | None => (os, None) end) as [os2 [cerr|]].
  - by intros [= <- <- <- <-].
  - destruct (OpenFile (bucketPath tw e) e os2) as [os3 [oerr|fh]] eqn:Hopen.
    + by intros [= <- <- <- <-].
    + unfold File_Write.
      destruct (fds (emit EvGo os3) !! fh) as [d|]; [|by intros [= <- <- <- <-]].
      destruct (fd_open d); [|by intros [= <- <- <- <-]].
      destruct (writeErr e) as [[m werr]|]; by intros [= <- <- <- <-].
Qed.

(** C9. After a successful [Close], a [Write] whose bucket start is at least
    one period past the recorded one and whose file name is not the recorded
    one opens the file of the new bucket, launches the sweep and writes the
    bytes to the new handle, when the operating system fails neither call;
    the writer then records the new handle, name and bucket start. Whatever
    the operating system answers, such a [Write] does not return
    [ClosedWriterError]: that error is left to the writes that keep the nil
    handle. *)
Theorem C9_write_after_close_reopens
    (tw tw1 : DateRotator) (e0 e : env) (os os1 : OS) (p : list Byte.byte) :
  period tw <> 0 ->
  Close tw e0 os = (tw1, os1, None) ->
  rotates tw1 e ->
  (openErr e = None -> writeErr e = None ->
   Write tw1 p e os1 =
     Some (rotated tw1 (bucketStart tw1 (now e)) (length (fds os1)),
           {| fds := fds os1 ++ [{| fd_path := bucketPath tw1 e; fd_open := true |}];
              events := events os1 ++ [EvOpen (bucketPath tw1 e); EvGo; EvWrite (length (fds os1)) p] |},
           (Z.of_nat (length p), None)))
  /\ (exists r, Write tw1 p e os1 = Some r /\ r.2.2 <> Some ClosedWriterError).
Proof.
  intros Hp Hclose Hr.
  destruct (Close_ok_outFile _ _ _ _ _ Hclose) as (Hnone & Hper & _).
  assert (period tw1 <> 0) as Hp1 by congruence.
  split.
  - intros Ho Hw. by apply Write_no_handle_rotates.
  - destruct (Write_total tw1 p e os1 Hp1) as [[[tw3 os3] [n err]] HW].
    exists (tw3, os3, (n, err)). split; [done|]. simpl.
    by eapply Write_rotates_not_closed.
Qed.

End RotationFacts.

(** ** Failures during the rotation *)

Section FailureFacts.
Context `{GoLib}.

(** C4, as amended. When the rotation closes the handle the writer holds and
    that call returns an error, the rotation stops there: no file is opened,
    [getFileHandler] returns a nil writer with the error of the close, and
    [Write] returns that error with zero bytes written. The writer itself is
    left as it was: it keeps the handle, the recorded name and the recorded
    bucket start. *)
Theorem C4_close_error_aborts_rotation
    (tw : DateRotator) (e : env) (os : OS) (h : handle) (err : oserror) (p : list Byte.byte) :
  period tw <> 0 ->
  rotates tw e ->
  outFile tw = Some h ->
  (File_Close h e os).2 = Some err ->
  getFileHandler tw e os = Some (tw, (File_Close h e os).1, (WNil, Some (OsError err)))
  /\ Write tw p e os = Some (tw, (File_Close h e os).1, (0, Some (OsError err)))
  /\ events (File_Close h e os).1 = events os ++ [EvClose h].
Proof.
  intros Hp Hr Hh Hc.
  assert (getFileHandler tw e os = Some (tw, (File_Close h e os).1, (WNil, Some (OsError err)))) as Hg.
  { rewrite getFileHandler_rotate by done. rewrite Hh.
    destruct (File_Close h e os) as [os1 cerr]. simpl in *. by subst. }
  split; [done|]. split; [|apply File_Close_events].
  unfold Write. by rewrite Hg.
Qed.

(** When the file of the new bucket does not open, the writer is left as it
    was: the recorded bucket start and name are not advanced, and the field
    [outFile] still holds the handle the rotation has just closed. *)
Lemma Write_open_error (tw : DateRotator) (e : env) (os : OS) (err : oserror) (p : list Byte.byte) :
  period tw <> 0 ->
  rotates tw e ->
  openErr e = Some err ->
  match outFile tw with
  | Some h => (File_Close h e os).2 = None
  | None => True
  end ->
  Write tw p e os =
    Some (tw,
          emit (EvOpen (bucketPath tw e))
            match outFile tw with
            | Some h => (File_Close h e os).1
            | None => os
            end,
          (0, Some (FileOpenError (bucketPath tw e) err))).
Proof.
  intros Hp Hr Ho Hc. unfold Write. rewrite getFileHandler_rotate by done.
  destruct (outFile tw) as [h|].
  - destruct (File_Close h e os) as [os1 cerr]. simpl in *. subst cerr.
    by rewrite (OpenFile_fail _ _ _ err).
  - by rewrite (OpenFile_fail _ _ _ err).
Qed.

(** A writer that holds no handle tries the same file again at its next
    [Write], as long as the clock stays in the bucket. *)
Lemma Write_retry_no_handle (tw : DateRotator) (e e1 : env) (os : OS) (err : oserror) (p : list Byte.byte) :
  period tw <> 0 ->
  rotates tw e ->
  outFile tw = None ->
  openErr e = Some err ->
  bucketStart tw (now e1) = bucketStart tw (now e) ->
  exists os1,
    Write tw p e os = Some (tw, os1, (0, Some (FileOpenError (bucketPath tw e) err)))
    /\ exists tw2 os2 r evs,
         Write tw p e1 os1 = Some (tw2, os2, r)
         /\ events os2 = events os1 ++ EvOpen (bucketPath tw e) :: evs.
Proof.
  intros Hp Hr Hnone Ho Hsame.
  pose proof (Write_open_error tw e os err p Hp Hr Ho) as HW. rewrite Hnone in HW.
  specialize (HW I). eexists. split; [exact HW|].
  assert (rotates tw e1) as Hr1 by (unfold rotates in *; by rewrite Hsame).
  assert (bucketPath tw e1 = bucketPath tw e) as Hpath by (unfold bucketPath; by rewrite Hsame).
  unfold Write. rewrite getFileHandler_rotate by done. rewrite Hnone, Hpath.
  unfold OpenFile. destruct (openErr e1) as [err1|].
  - by eexists _, _, _, [].
  - destruct (File_Write _ p e1 _) as [os2 r] eqn:HFW.
    pose proof (File_Write_events (Some (length (fds (emit (EvOpen (bucketPath tw e)) os)))) p e1
      (emit EvGo {| fds := fds (emit (EvOpen (bucketPath tw e)) os) ++ [{| fd_path := bucketPath tw e; fd_open := true |}];
                    events := events (emit (EvOpen (bucketPath tw e)) os) ++ [EvOpen (bucketPath tw e)] |})) as Hev.
    rewrite HFW in Hev. simpl in Hev.
    destruct Hev as [Hev | (h & _ & Hev)].
    + eexists _, os2, r, [EvGo]. split; [done|]. rewrite Hev. simpl. by rewrite <- !app_assoc.
    + eexists _, os2, r, [EvGo; EvWrite h p]. split; [done|]. rewrite Hev. simpl.
      by rewrite <- !app_assoc.
Qed.

(** A writer whose field [outFile] holds a closed handle cannot rotate: the
    rotation closes the handle again, that call fails, and no file is
    opened. *)
Lemma Write_stale_handle (tw : DateRotator) (e : env) (os : OS) (h : handle) (d : fdesc)
    (p : list Byte.byte) :
  period tw <> 0 ->
  rotates tw e ->
  outFile tw = Some h ->
  fds os !! h = Some d ->
  fd_open d = false ->
  Write tw p e os = Some (tw, emit (EvClose h) os, (0, Some (OsError ErrClosed))).
Proof.
  intros Hp Hr Hh Hd Hclosed. unfold Write. rewrite getFileHandler_rotate by done.
  rewrite Hh. unfold File_Close. by rewrite Hd, Hclosed.
Qed.

(** After a rotation that closed the held handle and then failed to open
    the new file, the writer is stuck: the next [Write] that rotates returns
    [ErrClosed] from the second close and opens nothing. *)
Lemma Write_after_open_error_stuck (tw : DateRotator) (e e1 : env) (os : OS) (h : handle)
    (err : oserror) (p : list Byte.byte) :
  period tw <> 0 ->
  rotates tw e ->
  rotates tw e1 ->
  outFile tw = Some h ->
  (File_Close h e os).2 = None ->
  openErr e = Some err ->
  exists os1,
    Write tw p e os = Some (tw, os1, (0, Some (FileOpenError (bucketPath tw e) err)))
    /\ Write tw p e1 os1 = Some (tw, emit (EvClose h) os1, (0, Some (OsError ErrClosed))).
Proof.
  intros Hp Hr Hr1 Hh Hc Ho.
  pose proof (Write_open_error tw e os err p Hp Hr Ho) as HW. rewrite Hh in HW.
  specialize (HW Hc). eexists. split; [exact HW|].
  destruct (File_Close_ok_closed h e os Hc) as (d & Hd & Hclosed).
  by apply (Write_stale_handle tw e1 _ h d).
Qed.

(** The test [fh == nil] of [Write] never holds when [getFileHandler]
    returns no error, so [Write] never returns [ClosedWriterError]. *)
Lemma Write_never_ClosedWriterError (tw tw1 : DateRotator) (p : list Byte.byte) (e : env)
    (os os1 : OS) (n : Z) (err : option error) :
  period tw <> 0 ->
  Write tw p e os = Some (tw1, os1, (n, err)) ->
  err <> Some ClosedWriterError.
Proof.
  intros Hp HW. destruct (keeps_or_rotates tw e) as [Hk | Hr].
  - unfold Write in HW. rewrite getFileHandler_keeps in HW by done.
    unfold File_Write in HW. destruct (outFile tw) as [h|]; [|by injection HW as <- <- <- <-].
    destruct (fds os !! h) as [d|]; [|by injection HW as <- <- <- <-].
    destruct (fd_open d); [|by injection HW as <- <- <- <-].
    destruct (writeErr e) as [[m werr]|]; by injection HW as <- <- <- <-.
  - by eapply Write_rotates_not_closed.
Qed.

End FailureFacts.

(** C4, counterexample. A writer holds handle 0 on the file of 2026-11-01;
    at the first write of 2026-11-02 the close of that handle fails. The
    write returns the error of the close, and the writer still holds handle
    0: its field [outFile] is not nil. *)
Lemma C4_counterexample :
  run (H := Demo.lib) Demo.tw0 Demo.os0
    [OpWrite Demo.hello (Demo.at_ (Demo.t0 + Demo.hour_ns));
     OpWrite Demo.hello (Demo.fail_close (Demo.t0 + 25 * Demo.hour_ns))]
  = Some ({| timeDiffToUTC := 0; lastTime := Demo.t0; period := day_ns; maxAge := 7;
             logPath := "/opt/app/logs"; filename := "2026-11-01.log";
             outFile := Some 0%nat;
             logFileTimeFormat := "2006-01-02"; ext := ".log" |},
          {| fds := [{| fd_path := "/opt/app/logs/2026-11-01.log"; fd_open := false |}];
             events := [EvOpen "/opt/app/logs/2026-11-01.log"; EvGo;
                        EvWrite 0 Demo.hello; EvClose 0] |},
          [RetWrite 2 None; RetWrite 0 (Some (OsError (Errno "input/output error")))]).
Proof. vm_compute. reflexivity. Qed.

(** C3, at the failing input. A writer holds handle 0 on the file of
    2026-11-01. The first write of 2026-11-02 closes it and fails to open the
    new file: it returns the open error, and leaves the recorded name and
    bucket start as they were, but the field [outFile] still holds handle 0,
    now closed. The next write, one hour later, does not try to open the
    file of 2026-11-02 again: the rotation closes handle 0 a second time,
    that call fails, and the write returns its error. *)
Lemma C3_open_error_leaves_closed_handle :
  run (H := Demo.lib) Demo.tw0 Demo.os0
    [OpWrite Demo.hello (Demo.at_ (Demo.t0 + Demo.hour_ns));
     OpWrite Demo.hello (Demo.fail_open (Demo.t0 + 25 * Demo.hour_ns));
     OpWrite Demo.hello (Demo.at_ (Demo.t0 + 26 * Demo.hour_ns))]
  = Some ({| timeDiffToUTC := 0; lastTime := Demo.t0; period := day_ns; maxAge := 7;
             logPath := "/opt/app/logs"; filename := "2026-11-01.log";
             outFile := Some 0%nat;
             logFileTimeFormat := "2006-01-02"; ext := ".log" |},
          {| fds := [{| fd_path := "/opt/app/logs/2026-11-01.log"; fd_open := false |}];
             events := [EvOpen "/opt/app/logs/2026-11-01.log"; EvGo;
                        EvWrite 0 Demo.hello; EvClose 0;
                        EvOpen "/opt/app/logs/2026-11-02.log"; EvClose 0] |},
          [RetWrite 2 None;
           RetWrite 0 (Some (FileOpenError "/opt/app/logs/2026-11-02.log" (Errno "permission denied")));
           RetWrite 0 (Some (OsError ErrClosed))]).
Proof. vm_compute. reflexivity. Qed.

(** C2, counterexample. A write on 2026-11-01, a successful [Close], and a
    write on 2026-11-02: the last write opens the file of 2026-11-02 and
    returns 2 bytes written and no error. *)
Lemma C2_counterexample :
  run (H := Demo.lib) Demo.tw0 Demo.os0
    [OpWrite Demo.hello (Demo.at_ (Demo.t0 + Demo.hour_ns));
     OpClose (Demo.at_ (Demo.t0 + 2 * Demo.hour_ns));
     OpWrite Demo.hello (Demo.at_ (Demo.t0 + 25 * Demo.hour_ns))]
  = Some ({| timeDiffToUTC := 0; lastTime := Demo.t0 + day_ns; period := day_ns; maxAge := 7;
             logPath := "/opt/app/logs"; filename := "2026-11-02.log";
             outFile := Some 1%nat;
             logFileTimeFormat := "2006-01-02"; ext := ".log" |},
          {| fds := [{| fd_path := "/opt/app/logs/2026-11-01.log"; fd_open := false |};
                     {| fd_path := "/opt/app/logs/2026-11-02.log"; fd_open := true |}];
             events := [EvOpen "/opt/app/logs/2026-11-01.log"; EvGo;
                        EvWrite 0 Demo.hello; EvClose 0;
                        EvOpen "/opt/app/logs/2026-11-02.log"; EvGo;
                        EvWrite 1 Demo.hello] |},
          [RetWrite 2 None; RetClose None; RetWrite 2 None]).
Proof. vm_compute. reflexivity. Qed.

(** ** Invariants of the writer *)

Lemma emit_paths (ev : event) (os : OS) : paths (emit ev os) = paths os.
Proof. done. Qed.

Lemma File_Write_paths (f : option handle) (p : list Byte.byte) (e : env) (os : OS) :
  paths (File_Write f p e os).1 = paths os.
Proof. unfold paths. by rewrite File_Write_fds. Qed.

Section InvariantFacts.
Context `{GoLib}.

Lemma NewDateRotator_fresh (c : ctorEnv) (directory format ext0 : string) (maxAge0 : Z)
    (tw : DateRotator) :
  NewDateRotator c directory format ext0 maxAge0 = inr tw ->
  period tw = day_ns /\ lastTime tw = 0 /\ outFile tw = None /\ filename tw = ""
  /\ maxAge tw = maxAge0 /\ logFileTimeFormat tw = format /\ ext tw = ext0.
Proof.
  unfold NewDateRotator. destruct (executable c) as [err|absolutePath]; [done|].
  destruct (statErr c) as [[|]|]; [destruct (mkdirErr c); [done|]|..];
    by intros [= <-].
Qed.

(** What one call of [getFileHandler] does to the writer and to the paths of
    the file table: nothing, or a rotation to the bucket of the clock. *)
Lemma getFileHandler_cases (tw tw1 : DateRotator) (e : env) (os os1 : OS)
    (w : Writer) (err : option error) :
  period tw <> 0 ->
  getFileHandler tw e os = Some (tw1, os1, (w, err)) ->
  (tw1 = tw /\ paths os1 = paths os)
  \/ (rotates tw e
      /\ tw1 = rotated tw (bucketStart tw (now e)) (length (paths os))
      /\ paths os1 = paths os ++ [bucketPath tw e]).
Proof.
  intros Hp. destruct (keeps_or_rotates tw e) as [Hk | Hr].
  - rewrite getFileHandler_keeps by done. intros [= <- <- <- <-]. by left.
  - rewrite getFileHandler_rotate by done.
    assert (paths (match outFile tw with Some h => File_Close h e os | None => (os, None) end).1
            = paths os) as Hpaths.
    { destruct (outFile tw); [apply File_Close_paths | done]. }
    destruct (match outFile tw with Some h => File_Close h e os | None => (os, None) end)
      as [os2 [cerr|]]; simpl in Hpaths.
    + intros [= <- <- <- <-]. by left.
    + destruct (OpenFile (bucketPath tw e) e os2) as [os3 [oerr|fh]] eqn:Hopen.
      * intros [= <- <- <- <-]. left. split; [done|].
        unfold OpenFile in Hopen. destruct (openErr e); [|done].
        injection Hopen as <- _. by rewrite emit_paths.
      * intros [= <- <- <- <-]. right.
        destruct (OpenFile_paths _ _ _ _ _ Hopen) as [-> Happ].
        by rewrite emit_paths, Happ, Hpaths.
Qed.

Lemma Write_cases (tw tw1 : DateRotator) (p : list Byte.byte) (e : env) (os os1 : OS)
    (r : Z * option error) :
  period tw <> 0 ->
  Write tw p e os = Some (tw1, os1, r) ->
  (tw1 = tw /\ paths os1 = paths os)
  \/ (rotates tw e
      /\ tw1 = rotated tw (bucketStart tw (now e)) (length (paths os))
      /\ paths os1 = paths os ++ [bucketPath tw e]).
Proof.
  intros Hp. unfold Write.
  destruct (getFileHandler tw e os) as [[[tw2 os2] [w gerr]]|] eqn:Hg; [|done].
  pose proof (getFileHandler_cases _ _ _ _ _ _ _ Hp Hg) as Hcases.
  destruct w as [|f], gerr as [err|]; try (by intros [= <- <- <-]).
  pose proof (File_Write_paths f p e os2) as Hfw.
  destruct (File_Write f p e os2) as [os3 r3]. simpl in Hfw.
  intros [= <- <- <-]. by rewrite Hfw.
Qed.

Lemma Close_cases (tw tw1 : DateRotator) (e : env) (os os1 : OS) (err : option error) :
  Close tw e os = (tw1, os1, err) ->
  paths os1 = paths os
  /\ period tw1 = period tw
  /\ lastTime tw1 = lastTime tw
  /\ (tw1 = tw \/ outFile tw1 = None).
Proof.
  unfold Close. destruct (outFile tw) as [h|] eqn:Hh.
  - pose proof (File_Close_paths h e os) as Hpaths.
    destruct (File_Close h e os) as [os2 [cerr|]]; simpl in Hpaths;
      intros [= <- <- <-]; repeat split; auto.
  - intros [= <- <- <-]. repeat split; auto.
Qed.

Lemma step_total (tw : DateRotator) (os : OS) (o : op) :
  period tw <> 0 -> is_Some (step tw os o).
Proof.
  intros Hp. destruct o as [p e|e]; simpl.
  - destruct (Write_total tw p e os Hp) as [[[tw1 os1] [n err]] ->]. by eexists.
  - destruct (Close tw e os) as [[tw1 os1] err]. by eexists.
Qed.

(** What one operation does to the writer and to the paths of the file
    table. *)
Lemma step_cases (tw tw1 : DateRotator) (os os1 : OS) (o : op) (r : ret) :
  period tw <> 0 ->
  step tw os o = Some (tw1, os1, r) ->
  period tw1 = period tw
  /\ (((tw1 = tw \/ (outFile tw1 = None /\ lastTime tw1 = lastTime tw)) /\ paths os1 = paths os)
      \/ (rotates tw (op_env o)
          /\ tw1 = rotated tw (bucketStart tw (now (op_env o))) (length (paths os))
          /\ paths os1 = paths os ++ [bucketPath tw (op_env o)])).
Proof.
  intros Hp. destruct o as [p e|e]; simpl.
  - destruct (Write tw p e os) as [[[tw2 os2] [n err]]|] eqn:HW; [|done].
    intros [= <- <- <-].
    destruct (Write_cases _ _ _ _ _ _ _ Hp HW) as [[-> Hpaths] | (Hr & -> & Hpaths)].
    + split; [done|]. left. auto.
    + split; [done|]. right. auto.
  - destruct (Close tw e os) as [[tw2 os2] err] eqn:HC. intros [= <- <- <-].
    destruct (Close_cases _ _ _ _ _ _ HC) as (Hpaths & Hper & Hlast & Hcase).
    split; [done|]. left. split; [|done]. destruct Hcase; auto.
Qed.

Lemma step_WriterInv (tw tw1 : DateRotator) (os os1 : OS) (o : op) (r : ret) :
  period tw <> 0 ->
  WriterInv tw os ->
  step tw os o = Some (tw1, os1, r) ->
  WriterInv tw1 os1.
Proof.
  intros Hp Hinv Hstep.
  destruct (step_cases _ _ _ _ _ _ Hp Hstep) as (_ & [[Htw Hpaths] | (Hr & -> & Hpaths)]).
  - destruct Htw as [-> | [Hnone _]].
    + unfold WriterInv. by rewrite Hpaths.
    + intros h Hh. congruence.
  - intros h Hh. simpl in Hh. injection Hh as <-. simpl.
    split; [done|]. split.
    + rewrite Hpaths. rewrite lookup_app_r by done. by rewrite Nat.sub_diag.
    + by exists (now (op_env o)).
Qed.

Lemma run_WriterInv (ops : list op) : forall (tw : DateRotator) (os : OS),
  period tw <> 0 ->
  WriterInv tw os ->
  exists tw1 os1 rets,
    run tw os ops = Some (tw1, os1, rets) /\ WriterInv tw1 os1 /\ period tw1 = period tw.
Proof.
  induction ops as [|o ops IH]; intros tw os Hp Hinv.
  - by exists tw, os, [].
  - destruct (step_total tw os o Hp) as [[[tw1 os1] r] Hstep].
    pose proof (step_WriterInv _ _ _ _ _ _ Hp Hinv Hstep) as Hinv1.
    destruct (step_cases _ _ _ _ _ _ Hp Hstep) as (Hper & _).
    destruct (IH tw1 os1) as (tw2 & os2 & rets & Hrun & Hinv2 & Hper2); [congruence | done |].
    exists tw2, os2, (r :: rets). simpl. rewrite Hstep, Hrun.
    split; [done|]. split; [done | congruence].
Qed.

(** C5. Every sequence of [Write] and [Close] on a writer that
    [NewDateRotator] has returned runs to its end, and leaves a writer that,
    whenever its handle is not nil, has recorded as file name the recorded
    bucket start formatted with the layout, followed by the extension; the
    handle is open on the file of that name in the log directory; and the
    recorded bucket start is the bucket start of a clock reading. *)
Theorem C5_handle_matches_recorded_bucket
    (c : ctorEnv) (directory format ext0 : string) (maxAge0 : Z)
    (tw0 : DateRotator) (os0 : OS) (ops : list op) :
  NewDateRotator c directory format ext0 maxAge0 = inr tw0 ->
  exists tw os rets,
    run tw0 os0 ops = Some (tw, os, rets)
    /\ forall h, outFile tw = Some h ->
         filename tw = time_Format (logFileTimeFormat tw) (lastTime tw) +:+ ext tw
         /\ paths os !! h = Some (filepath_Join (logPath tw) (filename tw))
         /\ exists t, lastTime tw = bucketStart tw t.
Proof.
  intros Hnew.
  destruct (NewDateRotator_fresh _ _ _ _ _ _ Hnew) as (Hper & _ & Hnone & _).
  destruct (run_WriterInv ops tw0 os0) as (tw & os & rets & Hrun & Hinv & _).
  - rewrite Hper. done.
  - intros h Hh. congruence.
  - by exists tw, os, rets.
Qed.

End InvariantFacts.

(** C5, on a run: a write on 2026-11-01, a close, a write on the same day and
    a write on 2026-11-02. *)
Lemma C5_witness :
  exists tw os rets,
    run (H := Demo.lib) Demo.tw0 Demo.os0
      [OpWrite Demo.hello (Demo.at_ (Demo.t0 + Demo.hour_ns));
       OpClose (Demo.at_ (Demo.t0 + 2 * Demo.hour_ns));
       OpWrite Demo.hello (Demo.at_ (Demo.t0 + 3 * Demo.hour_ns));
       OpWrite Demo.hello (Demo.at_ (Demo.t0 + 25 * Demo.hour_ns))]
    = Some (tw, os, rets)
    /\ forall h, outFile tw = Some h ->
         filename tw = Demo.Format (logFileTimeFormat tw) (lastTime tw) +:+ ext tw
         /\ paths os !! h = Some (Demo.Join (logPath tw) (filename tw))
         /\ exists t, lastTime tw = bucketStart tw t.
Proof.
  apply (C5_handle_matches_recorded_bucket (H := Demo.lib) Demo.ctor "logs" "2006-01-02" ".log" 7).
  vm_compute. reflexivity.
Defined.

(** ** The recorded bucket start over time *)

Section MonotoneFacts.
Context `{GoLib}.

(** The bucket start of a clock reading in range is less than one period
    away from it, and the subtraction that computes it does not wrap. *)
Lemma bucketStart_near (tw : DateRotator) (t : Z) :
  period tw = day_ns ->
  0 <= t <= int64_max - 2 * day_ns ->
  t - day_ns < bucketStart tw t < t + day_ns.
Proof.
  intros Hper Ht. unfold bucketStart, sub64. rewrite Hper.
  pose proof (rem_day_bound (add64 t (timeDiffToUTC tw))) as Hrem.
  unfold int64_max, day_ns in *.
  rewrite wrap64_id by (unfold int64_min, int64_max; lia). lia.
Qed.

Lemma step_lastTime (tw tw1 : DateRotator) (os os1 : OS) (o : op) (r : ret) :
  TimeInv tw ->
  clockInRange (op_env o) ->
  step tw os o = Some (tw1, os1, r) ->
  TimeInv tw1
  /\ (lastTime tw1 = lastTime tw \/ lastTime tw + period tw <= lastTime tw1).
Proof.
  intros [Hper Hlast] Hclock Hstep.
  assert (period tw <> 0) as Hp by (rewrite Hper; done).
  destruct (step_cases _ _ _ _ _ _ Hp Hstep) as (Hper1 & [[Htw _] | ([Hge _] & -> & _)]).
  - destruct Htw as [-> | [_ Heq]].
    + split; [done | by left].
    + split; [|by left]. split; [congruence|]. by rewrite Heq.
  - pose proof (bucketStart_near tw (now (op_env o)) Hper Hclock) as Hnear.
    unfold clockInRange in Hclock. unfold sub64 in Hge. unfold TimeInv. simpl.
    unfold int64_max, day_ns in *.
    rewrite wrap64_id in Hge by (unfold int64_min, int64_max; lia).
    simpl. split; [|right; lia]. split; [done | lia].
Qed.

Lemma run_lastTime (ops : list op) : forall (tw : DateRotator) (os : OS),
  TimeInv tw ->
  Forall (fun o => clockInRange (op_env o)) ops ->
  exists tw1 os1 rets,
    run tw os ops = Some (tw1, os1, rets)
    /\ TimeInv tw1
    /\ (lastTime tw1 = lastTime tw \/ lastTime tw + period tw <= lastTime tw1).
Proof.
  induction ops as [|o ops IH]; intros tw os Hinv Hall.
  - exists tw, os, []. split; [done|]. split; [done | by left].
  - inversion Hall as [|? ? Ho Hrest]; subst.
    assert (period tw <> 0) as Hp by (destruct Hinv as [-> _]; done).
    destruct (step_total tw os o Hp) as [[[tw1 os1] r] Hstep].
    destruct (step_lastTime _ _ _ _ _ _ Hinv Ho Hstep) as (Hinv1 & Hmono1).
    destruct (IH tw1 os1 Hinv1 Hrest) as (tw2 & os2 & rets & Hrun & Hinv2 & Hmono2).
    exists tw2, os2, (r :: rets). simpl. rewrite Hstep, Hrun.
    split; [done|]. split; [done|].
    destruct Hinv as [Hper _], Hinv1 as [Hper1 _].
    rewrite Hper in *. rewrite Hper1 in *. unfold day_ns in *. lia.
Qed.

(** C10. On a writer that [NewDateRotator] has returned, while every clock
    reading is a date from the epoch up to two periods before the last
    instant of [int64], no sequence of [Write] and [Close] lowers the
    recorded bucket start: from any state the writer has reached, every
    further sequence runs to its end and leaves the recorded bucket start
    either as it was or at least one full period later. The clock readings
    need not increase. *)
Theorem C10_lastTime_never_decreases
    (c : ctorEnv) (directory format ext0 : string) (maxAge0 : Z)
    (tw0 tw1 : DateRotator) (os0 os1 : OS) (ops1 ops2 : list op) (rets1 : list ret) :
  NewDateRotator c directory format ext0 maxAge0 = inr tw0 ->
  Forall (fun o => clockInRange (op_env o)) ops1 ->
  Forall (fun o => clockInRange (op_env o)) ops2 ->
  run tw0 os0 ops1 = Some (tw1, os1, rets1) ->
  exists tw2 os2 rets2,
    run tw1 os1 ops2 = Some (tw2, os2, rets2)
    /\ lastTime tw1 <= lastTime tw2
    /\ (lastTime tw2 = lastTime tw1 \/ lastTime tw1 + period tw1 <= lastTime tw2).
Proof.
  intros Hnew Hall1 Hall2 Hrun1.
  destruct (NewDateRotator_fresh _ _ _ _ _ _ Hnew) as (Hper & Hlast & _).
  assert (TimeInv tw0) as Hinv0.
  { split; [done|]. rewrite Hlast. unfold int64_max, day_ns. lia. }
  destruct (run_lastTime ops1 tw0 os0 Hinv0 Hall1) as (tw1' & os1' & rets1' & Hrun1' & Hinv1 & _).
  rewrite Hrun1 in Hrun1'. injection Hrun1' as <- <- <-.
  destruct (run_lastTime ops2 tw1 os1 Hinv1 Hall2) as (tw2 & os2 & rets2 & Hrun2 & _ & Hmono).
  exists tw2, os2, rets2. split; [done|]. split; [|done].
  destruct Hinv1 as [Hper1 _]. rewrite Hper1 in Hmono. unfold day_ns in Hmono. lia.
Qed.

End MonotoneFacts.

(** C10, on a run whose clock goes back: two writes on 2026-11-02, then a
    write on 2026-11-01, a close and a write on 2026-11-03. *)
Lemma C10_witness :
  exists tw2 os2 rets2,
    run (H := Demo.lib) Demo.tw_nov2 Demo.os_nov2
      [OpWrite Demo.hello (Demo.at_ (Demo.t0 + Demo.hour_ns));
       OpClose (Demo.at_ (Demo.t0 + 2 * Demo.hour_ns));
       OpWrite Demo.hello (Demo.at_ (Demo.t0 + 50 * Demo.hour_ns))]
    = Some (tw2, os2, rets2)
    /\ lastTime Demo.tw_nov2 <= lastTime tw2
    /\ (lastTime tw2 = lastTime Demo.tw_nov2
        \/ lastTime Demo.tw_nov2 + period Demo.tw_nov2 <= lastTime tw2).
Proof.
  apply (C10_lastTime_never_decreases (H := Demo.lib) Demo.ctor "logs" "2006-01-02" ".log" 7
           Demo.tw0 Demo.tw_nov2 Demo.os0 Demo.os_nov2
           [OpWrite Demo.hello (Demo.at_ (Demo.t0 + 25 * Demo.hour_ns));
            OpWrite Demo.hello (Demo.at_ (Demo.t0 + 26 * Demo.hour_ns))]
           _
           [RetWrite 2 None; RetWrite 2 None]).
  - vm_compute. reflexivity.
  - repeat constructor; vm_compute; discriminate.
  - repeat constructor; vm_compute; discriminate.
  - vm_compute. reflexivity.
Defined.

(** ** The retention sweep *)

Lemma Demo_insert_by_perm (less : logInfo -> logInfo -> bool) (x : logInfo) (l : list logInfo) :
  Demo.insert_by less x l ≡ₚ x :: l.
Proof.
  induction l as [|y l IH]; simpl; [done|].
  destruct (less y x); [|done].
  rewrite IH. apply Permutation_swap.
Qed.

Lemma Demo_Sort_perm (less : logInfo -> logInfo -> bool) (l : list logInfo) :
  Demo.Sort less l ≡ₚ l.
Proof.
  induction l as [|x l IH]; simpl; [done|].
  unfold Demo.Sort in IH. by rewrite Demo_insert_by_perm, IH.
Qed.

(** A horizon of at most [maxAge_max] days puts the cutoff that many days
    before the clock: neither the product nor the negation wraps. *)
Lemma cutoffOf_days (tw : DateRotator) (se : sweepEnv) :
  0 < maxAge tw <= maxAge_max ->
  cutoffOf tw se = sw_now se - maxAge tw * day_ns.
Proof.
  unfold maxAge_max, cutoffOf, neg64, mul64, day_ns. intros Hage.
  rewrite (wrap64_id (86400000000000 * maxAge tw)) by (unfold int64_min, int64_max; lia).
  rewrite wrap64_id by (unfold int64_min, int64_max; lia). lia.
Qed.

Section SweepFacts.
Context `{GoLib}.

(** The log files of a directory: the entries that are not directories,
    whose name parses and whose [Info] succeeds. *)
Lemma elem_of_logFilesOf (tw : DateRotator) (dirEntries : list DirEntry) (f : logInfo) :
  f ∈ logFilesOf tw dirEntries <->
  exists entry, entry ∈ dirEntries
    /\ de_IsDir entry = false
    /\ timeFromName tw (de_Name entry) = Some (timestamp f)
    /\ de_Info entry = Some (info f).
Proof.
  induction dirEntries as [|entry rest IH]; simpl.
  - split; [by intros ?%elem_of_nil | by intros (? & ?%elem_of_nil & _)].
  - assert ((exists entry0, entry0 ∈ entry :: rest /\ de_IsDir entry0 = false
               /\ timeFromName tw (de_Name entry0) = Some (timestamp f)
               /\ de_Info entry0 = Some (info f))
            <-> (de_IsDir entry = false
                 /\ timeFromName tw (de_Name entry) = Some (timestamp f)
                 /\ de_Info entry = Some (info f))
                \/ f ∈ logFilesOf tw rest) as ->.
    { rewrite IH. split.
      - intros (entry0 & [-> | Hin]%elem_of_cons & Hrest); [by left | right; by exists entry0].
      - intros [Hhere | (entry0 & Hin & Hrest)].
        + exists entry. split; [by left | done].
        + exists entry0. split; [by right | done]. }
    destruct (de_IsDir entry) eqn:Hdir.
    { split; [by right | by intros [(? & _) | ?]]. }
    destruct (timeFromName tw (de_Name entry)) as [t|] eqn:Ht.
    2: { split; [by right | by intros [(_ & ? & _) | ?]]. }
    destruct (de_Info entry) as [fi|] eqn:Hfi.
    2: { split; [by right | by intros [(_ & _ & ?) | ?]]. }
    rewrite elem_of_cons. split.
    + intros [-> | Hin]; [by left | by right].
    + intros [(_ & [= Ht'] & [= Hfi']) | Hin]; [left | by right].
      destruct f as [t' fi']. simpl in *. by subst.
Qed.

(** The removal loop tries every file of its list in order, and returns the
    error it started with or else the error of the first removal that
    failed. *)
Lemma removeAll_spec (tw : DateRotator) (se : sweepEnv) (remove : list logInfo) :
  forall err : option error,
  removeAll tw se remove err =
    ((fun f => EvRemove (removePath tw f)) <$> remove,
     match err with
     | Some e => Some e
     | None => firstRemoveError tw se remove
     end).
Proof.
  induction remove as [|f rest IH]; intros err; simpl.
  - by destruct err.
  - rewrite IH. unfold firstRemoveError, removePath. simpl.
    destruct err as [e|]; [done|].
    by destruct (removeErr se (filepath_Join (logPath tw) (Name (info f)))).
Qed.

(** The sweep with a positive horizon on a directory that can be read. *)
Lemma cleanRunOnce_positive (tw : DateRotator) (se : sweepEnv) (dirEntries : list DirEntry) :
  0 < maxAge tw ->
  readDir se = inr dirEntries ->
  cleanRunOnce tw se =
    (EvReadDir (logPath tw) :: ((fun f => EvRemove (removePath tw f)) <$> candidates tw se dirEntries),
     firstRemoveError tw se (candidates tw se dirEntries)).
Proof.
  intros Hage Hdir. unfold cleanRunOnce, oldLogFiles. rewrite Hdir.
  destruct (Z.eqb_spec (maxAge tw) 0) as [|_]; [lia|].
  destruct (Z.ltb_spec 0 (maxAge tw)); [|lia].
  by rewrite removeAll_spec.
Qed.

(** C6, as amended. For a horizon of 1 to 106751 days (those whose length in
    nanoseconds is an [int64]) and a directory that can be read, one sweep
    tries to remove exactly the log files whose parsed timestamp is strictly
    before the clock reading minus the horizon times 24 hours. A log file
    dated at that instant or later is not removed. *)
Theorem C6_sweep_removes_strictly_before_cutoff
    (tw : DateRotator) (se : sweepEnv) (dirEntries : list DirEntry) (path : string) :
  (forall l, sort_Sort byFormatTime_Less l ≡ₚ l) ->
  0 < maxAge tw <= maxAge_max ->
  readDir se = inr dirEntries ->
  EvRemove path ∈ (cleanRunOnce tw se).1 <->
  exists entry t fi,
    entry ∈ dirEntries
    /\ de_IsDir entry = false
    /\ timeFromName tw (de_Name entry) = Some t
    /\ de_Info entry = Some fi
    /\ path = filepath_Join (logPath tw) (Name fi)
    /\ t < sw_now se - maxAge tw * day_ns.
Proof.
  intros Hperm Hage Hdir.
  rewrite (cleanRunOnce_positive tw se dirEntries) by (done || lia). simpl.
  rewrite elem_of_cons, list_elem_of_fmap. unfold candidates.
  rewrite <- (cutoffOf_days tw se Hage).
  split.
  - intros [Hbad | (f & [= ->] & Hin)]; [done|].
    apply list_elem_of_In, filter_In in Hin as [Hin Hlt].
    apply list_elem_of_In in Hin. rewrite Hperm in Hin.
    apply elem_of_logFilesOf in Hin as (entry & Hentry & Hd & Ht & Hfi).
    exists entry, (timestamp f), (info f). repeat split; try done. lia.
  - intros (entry & t & fi & Hentry & Hd & Ht & Hfi & -> & Hlt).
    right. exists {| timestamp := t; info := fi |}. split; [done|].
    apply list_elem_of_In, filter_In. split.
    + apply list_elem_of_In. rewrite Hperm. apply elem_of_logFilesOf. by exists entry.
    + simpl. lia.
Qed.

(** C7, as amended. A sweep with a positive horizon on a directory that can
    be read tries to remove every candidate, in order, whether or not an
    earlier removal failed, and returns the error of the first removal that
    failed (no error when none failed). *)
Theorem C7_sweep_returns_first_remove_error
    (tw : DateRotator) (se : sweepEnv) (dirEntries : list DirEntry) :
  0 < maxAge tw ->
  readDir se = inr dirEntries ->
  (cleanRunOnce tw se).1 =
    EvReadDir (logPath tw) :: ((fun f => EvRemove (removePath tw f)) <$> candidates tw se dirEntries)
  /\ (cleanRunOnce tw se).2 = firstRemoveError tw se (candidates tw se dirEntries).
Proof.
  intros Hage Hdir. by rewrite (cleanRunOnce_positive tw se dirEntries).
Qed.

(** C8, as amended. A sweep with a horizon of zero or less removes no file.
    With the horizon zero it does nothing at all and returns no error. With
    a negative horizon it still lists the directory, and returns the error
    of the listing when that fails. *)
Theorem C8_sweep_without_horizon (tw : DateRotator) (se : sweepEnv) :
  maxAge tw <= 0 ->
  (forall path, EvRemove path ∉ (cleanRunOnce tw se).1)
  /\ (maxAge tw = 0 -> cleanRunOnce tw se = ([], None))
  /\ (maxAge tw < 0 ->
      cleanRunOnce tw se =
        ([EvReadDir (logPath tw)],
         match readDir se with
         | inl err => Some (ReadDirError err)
         | inr _ => None
         end)).
Proof.
  intros Hage. unfold cleanRunOnce, oldLogFiles.
  destruct (Z.eqb_spec (maxAge tw) 0) as [Hz | Hnz].
  - split; [intros path Hin; by apply elem_of_nil in Hin|]. split; [done | lia].
  - destruct (Z.ltb_spec 0 (maxAge tw)); [lia|].
    assert (forall path, EvRemove path ∉ [EvReadDir (logPath tw)]) as Hnot.
    { intros path Hin. apply list_elem_of_singleton in Hin. done. }
    destruct (readDir se) as [err|dirEntries]; simpl; (split; [done|]); split; (done || lia).
Qed.

End SweepFacts.

(** ** Concrete runs *)

(** C1, on a run: the writer holds handle 0 on the file of 2026-11-02, and
    the clock reads hours of that day, in any order. *)
Lemma C1_witness :
  getFileHandler (H := Demo.lib) Demo.tw_nov2 (Demo.at_ (Demo.t0 + 30 * Demo.hour_ns)) Demo.os_nov2
    = Some (Demo.tw_nov2, Demo.os_nov2, (WFile (outFile Demo.tw_nov2), None))
  /\ exists os1 rets evs,
       run (H := Demo.lib) Demo.tw_nov2 Demo.os_nov2
         [OpWrite Demo.hello (Demo.at_ (Demo.t0 + 31 * Demo.hour_ns));
          OpWrite Demo.hello (Demo.at_ (Demo.t0 + 26 * Demo.hour_ns))]
       = Some (Demo.tw_nov2, os1, rets)
       /\ fds os1 = fds Demo.os_nov2
       /\ events os1 = events Demo.os_nov2 ++ evs
       /\ Forall (writesTo Demo.tw_nov2) evs.
Proof.
  apply (C1_same_bucket_reuses_handle (H := Demo.lib)).
  - vm_compute. discriminate.
  - vm_compute. reflexivity.
  - repeat constructor; vm_compute; reflexivity.
Defined.

(** C2, on a run: [Close] on 2026-11-02, then a write later that day. *)
Lemma C2_witness :
  exists err,
    Write (H := Demo.lib) Demo.tw_closed Demo.hello (Demo.at_ (Demo.t0 + 30 * Demo.hour_ns))
      Demo.os_closed
    = Some (Demo.tw_closed, Demo.os_closed, (0, Some err)).
Proof.
  apply (C2_write_after_close_no_rotation (H := Demo.lib)
           Demo.tw_nov2 Demo.tw_closed (Demo.at_ (Demo.t0 + 29 * Demo.hour_ns))
           (Demo.at_ (Demo.t0 + 30 * Demo.hour_ns)) Demo.os_nov2 Demo.os_closed Demo.hello).
  - vm_compute. discriminate.
  - vm_compute. reflexivity.
  - left. vm_compute. reflexivity.
Defined.

(** C4, on a run: the close of handle 0 fails at the first write of
    2026-11-03. *)
Lemma C4_witness :
  getFileHandler (H := Demo.lib) Demo.tw_nov2 (Demo.fail_close (Demo.t0 + 49 * Demo.hour_ns))
      Demo.os_nov2
    = Some (Demo.tw_nov2,
            (File_Close 0 (Demo.fail_close (Demo.t0 + 49 * Demo.hour_ns)) Demo.os_nov2).1,
            (WNil, Some (OsError (Errno "input/output error"))))
  /\ Write (H := Demo.lib) Demo.tw_nov2 Demo.hello
       (Demo.fail_close (Demo.t0 + 49 * Demo.hour_ns)) Demo.os_nov2
     = Some (Demo.tw_nov2,
             (File_Close 0 (Demo.fail_close (Demo.t0 + 49 * Demo.hour_ns)) Demo.os_nov2).1,
             (0, Some (OsError (Errno "input/output error"))))
  /\ events (File_Close 0 (Demo.fail_close (Demo.t0 + 49 * Demo.hour_ns)) Demo.os_nov2).1
     = events Demo.os_nov2 ++ [EvClose 0].
Proof.
  apply (C4_close_error_aborts_rotation (H := Demo.lib)).
  - vm_compute. discriminate.
  - split; [vm_compute; discriminate | vm_compute; discriminate].
  - reflexivity.
  - reflexivity.
Defined.

(** C9, on a run: [Close] on 2026-11-02, then a write on 2026-11-03. *)
Lemma C9_witness :
  (openErr (Demo.at_ (Demo.t0 + 49 * Demo.hour_ns)) = None ->
   writeErr (Demo.at_ (Demo.t0 + 49 * Demo.hour_ns)) = None ->
   Write (H := Demo.lib) Demo.tw_closed Demo.hello (Demo.at_ (Demo.t0 + 49 * Demo.hour_ns))
     Demo.os_closed
   = Some (rotated (H := Demo.lib) Demo.tw_closed
             (bucketStart Demo.tw_closed (now (Demo.at_ (Demo.t0 + 49 * Demo.hour_ns))))
             (length (fds Demo.os_closed)),
           {| fds := fds Demo.os_closed ++
                [{| fd_path := bucketPath (H := Demo.lib) Demo.tw_closed
                                 (Demo.at_ (Demo.t0 + 49 * Demo.hour_ns));
                    fd_open := true |}];
              events := events Demo.os_closed ++
                [EvOpen (bucketPath (H := Demo.lib) Demo.tw_closed
                           (Demo.at_ (Demo.t0 + 49 * Demo.hour_ns)));
                 EvGo; EvWrite (length (fds Demo.os_closed)) Demo.hello] |},
           (Z.of_nat (length Demo.hello), None)))
  /\ (exists r,
        Write (H := Demo.lib) Demo.tw_closed Demo.hello (Demo.at_ (Demo.t0 + 49 * Demo.hour_ns))
          Demo.os_closed = Some r
        /\ r.2.2 <> Some ClosedWriterError).
Proof.
  apply (C9_write_after_close_reopens (H := Demo.lib)
           Demo.tw_nov2 Demo.tw_closed (Demo.at_ (Demo.t0 + 29 * Demo.hour_ns))
           (Demo.at_ (Demo.t0 + 49 * Demo.hour_ns)) Demo.os_nov2 Demo.os_closed Demo.hello).
  - vm_compute. discriminate.
  - vm_compute. reflexivity.
  - split; [vm_compute; discriminate | vm_compute; discriminate].
Defined.

(** C6, counterexample. A sweep with a horizon of 7 days at
    2026-11-01T00:00:00Z over the files of 2026-10-24, 2026-10-25 and
    2026-10-26: the file of 2026-10-25 parses to the instant exactly 7 days
    before the clock, and the sweep removes the file of 2026-10-24 only. *)
Lemma C6_counterexample :
  timeFromName (H := Demo.lib) Demo.tw0 "2026-10-25.log"
    = Some (sw_now Demo.se_midnight - 7 * day_ns)
  /\ cleanRunOnce (H := Demo.lib) Demo.tw0 Demo.se_midnight
     = ([EvReadDir "/opt/app/logs"; EvRemove "/opt/app/logs/2026-10-24.log"], None).
Proof. split; vm_compute; reflexivity. Qed.

(** C6, on a sweep at 2026-11-01T01:00:00Z over the files of 2026-10-01,
    2026-10-02 and 2026-10-31. *)
Lemma C6_witness :
  EvRemove "/opt/app/logs/2026-10-02.log" ∈ (cleanRunOnce (H := Demo.lib) Demo.tw0 Demo.se_busy).1 <->
  exists entry t fi,
    entry ∈ [Demo.file "2026-10-01.log"; Demo.file "2026-10-02.log"; Demo.file "2026-10-31.log"]
    /\ de_IsDir entry = false
    /\ timeFromName (H := Demo.lib) Demo.tw0 (de_Name entry) = Some t
    /\ de_Info entry = Some fi
    /\ "/opt/app/logs/2026-10-02.log" = Demo.Join (logPath Demo.tw0) (Name fi)
    /\ t < sw_now Demo.se_busy - maxAge Demo.tw0 * day_ns.
Proof.
  apply (C6_sweep_removes_strictly_before_cutoff (H := Demo.lib) Demo.tw0 Demo.se_busy).
  - intros l. apply Demo_Sort_perm.
  - unfold maxAge_max. simpl. lia.
  - reflexivity.
Defined.

(** C7, counterexample. Two removals fail in one sweep, that of the file of
    2026-10-02 with "text file busy" and then that of the file of 2026-10-01
    with "permission denied": the sweep tries both and returns the first
    error, not the last. *)
Lemma C7_counterexample :
  cleanRunOnce (H := Demo.lib) Demo.tw0 Demo.se_busy
    = ([EvReadDir "/opt/app/logs"; EvRemove "/opt/app/logs/2026-10-02.log";
        EvRemove "/opt/app/logs/2026-10-01.log"],
       Some (OsError (Errno "text file busy")))
  /\ lastRemoveError (H := Demo.lib) Demo.tw0 Demo.se_busy
       (candidates (H := Demo.lib) Demo.tw0 Demo.se_busy
          [Demo.file "2026-10-01.log"; Demo.file "2026-10-02.log"; Demo.file "2026-10-31.log"])
     = Some (OsError (Errno "permission denied")).
Proof. split; vm_compute; reflexivity. Qed.

(** C7, on the sweep of the counterexample. *)
Lemma C7_witness :
  (cleanRunOnce (H := Demo.lib) Demo.tw0 Demo.se_busy).1 =
    EvReadDir (logPath Demo.tw0)
    :: ((fun f => EvRemove (removePath (H := Demo.lib) Demo.tw0 f))
          <$> candidates (H := Demo.lib) Demo.tw0 Demo.se_busy
                [Demo.file "2026-10-01.log"; Demo.file "2026-10-02.log"; Demo.file "2026-10-31.log"])
  /\ (cleanRunOnce (H := Demo.lib) Demo.tw0 Demo.se_busy).2 =
       firstRemoveError (H := Demo.lib) Demo.tw0 Demo.se_busy
         (candidates (H := Demo.lib) Demo.tw0 Demo.se_busy
            [Demo.file "2026-10-01.log"; Demo.file "2026-10-02.log"; Demo.file "2026-10-31.log"]).
Proof.
  apply (C7_sweep_returns_first_remove_error (H := Demo.lib) Demo.tw0 Demo.se_busy).
  - vm_compute. reflexivity.
  - reflexivity.
Defined.

(** C8, counterexample. A sweep with a horizon of -1 over a directory that
    cannot be listed: the sweep calls [os.ReadDir] and returns its error. *)
Lemma C8_counterexample :
  cleanRunOnce (H := Demo.lib) Demo.tw_neg Demo.se_unreadable
    = ([EvReadDir "/opt/app/logs"], Some (ReadDirError (Errno "no such file or directory"))).
Proof. vm_compute. reflexivity. Qed.

(** C8, on the sweep of the counterexample. *)
Lemma C8_witness :
  (forall path, EvRemove path ∉ (cleanRunOnce (H := Demo.lib) Demo.tw_neg Demo.se_unreadable).1)
  /\ (maxAge Demo.tw_neg = 0 ->
      cleanRunOnce (H := Demo.lib) Demo.tw_neg Demo.se_unreadable = ([], None))
  /\ (maxAge Demo.tw_neg < 0 ->
      cleanRunOnce (H := Demo.lib) Demo.tw_neg Demo.se_unreadable =
        ([EvReadDir (logPath Demo.tw_neg)],
         match readDir Demo.se_unreadable with
         | inl err => Some (ReadDirError err)
         | inr _ => None
         end)).
Proof.
  apply (C8_sweep_without_horizon (H := Demo.lib) Demo.tw_neg Demo.se_unreadable).
  vm_compute. discriminate.
Defined.

(** ** Bucket boundaries *)

Section BucketFacts.
Context `{GoLib}.

(** For a clock reading that is a date from the epoch on, also after the
    shift by the zone, the arithmetic of [bucketStart] does not wrap and
    its remainder is the mathematical one. *)
Lemma bucketStart_civil (tw : DateRotator) (t : Z) :
  period tw = day_ns ->
  civilClock tw t ->
  bucketStart tw t = t - (t + timeDiffToUTC tw) mod day_ns.
Proof.
  intros Hper [Ht Hshift]. unfold bucketStart, sub64, add64. rewrite Hper.
  rewrite (wrap64_id (t + timeDiffToUTC tw)) by (unfold int64_min, int64_max in *; lia).
  rewrite Z.rem_mod_nonneg by (unfold day_ns; lia).
  pose proof (Z.mod_pos_bound (t + timeDiffToUTC tw) day_ns eq_refl) as Hr.
  apply wrap64_id. unfold int64_min, int64_max, day_ns in *. lia.
Qed.

(** The bucket start of such a clock reading is a multiple of 24 hours once
    shifted by the zone. *)
Lemma bucketStart_aligned (tw : DateRotator) (t : Z) :
  period tw = day_ns ->
  civilClock tw t ->
  aligned tw (bucketStart tw t).
Proof.
  intros Hper Hclock. rewrite bucketStart_civil by done. unfold aligned.
  replace (t - (t + timeDiffToUTC tw) mod day_ns + timeDiffToUTC tw)
    with (day_ns * ((t + timeDiffToUTC tw) / day_ns)).
  - rewrite Z.mul_comm. apply Z.mod_mul. done.
  - pose proof (Z.div_mod (t + timeDiffToUTC tw) day_ns ltac:(done)). lia.
Qed.

(** X1. The bucket start of such a clock reading is the last local midnight:
    it is aligned to the local day, it is not after the reading, and the
    reading is less than 24 hours after it. *)
Theorem bucketStart_last_local_midnight (tw : DateRotator) (t : Z) :
  period tw = day_ns ->
  civilClock tw t ->
  aligned tw (bucketStart tw t)
  /\ bucketStart tw t <= t < bucketStart tw t + day_ns.
Proof.
  intros Hper Hclock. split; [by apply bucketStart_aligned|].
  rewrite bucketStart_civil by done.
  pose proof (Z.mod_pos_bound (t + timeDiffToUTC tw) day_ns eq_refl) as Hr. lia.
Qed.

(** X2. Two clock readings of one local day have the same bucket start. *)
Theorem bucketStart_same_day (tw : DateRotator) (t t1 : Z) :
  period tw = day_ns ->
  civilClock tw t ->
  civilClock tw t1 ->
  (t + timeDiffToUTC tw) / day_ns = (t1 + timeDiffToUTC tw) / day_ns ->
  bucketStart tw t = bucketStart tw t1.
Proof.
  intros Hper Hc Hc1 Hday. rewrite !bucketStart_civil by done.
  pose proof (Z.div_mod (t + timeDiffToUTC tw) day_ns ltac:(done)).
  pose proof (Z.div_mod (t1 + timeDiffToUTC tw) day_ns ltac:(done)).
  rewrite Hday in *. lia.
Qed.

(** X3. Where the rotation happens on the time line. For a writer whose recorded
    bucket start is a local midnight: a clock reading less than one period
    after the recorded start (and every earlier reading, a clock that went
    back included) leaves the writer and the operating system untouched; a
    reading one period or more after it passes the first test of the
    rotation, and its bucket start is a later local midnight. *)
Theorem rotation_at_next_midnight (tw : DateRotator) (e : env) (os : OS) :
  TimeInv tw ->
  aligned tw (lastTime tw) ->
  clockInRange e ->
  0 <= now e + timeDiffToUTC tw <= int64_max ->
  (now e < lastTime tw + period tw ->
   getFileHandler tw e os = Some (tw, os, (WFile (outFile tw), None)))
  /\ (lastTime tw + period tw <= now e ->
      period tw <= sub64 (bucketStart tw (now e)) (lastTime tw)
      /\ lastTime tw + period tw <= bucketStart tw (now e) <= now e).
Proof.
  intros [Hper Hlast] Hal Hclock Hshift.
  assert (civilClock tw (now e)) as Hcivil.
  { unfold clockInRange, civilClock, int64_max, day_ns in *. lia. }
  pose proof (bucketStart_civil tw (now e) Hper Hcivil) as Hcur.
  pose proof (Z.mod_pos_bound (now e + timeDiffToUTC tw) day_ns eq_refl) as Hr.
  pose proof (Z.div_mod (now e + timeDiffToUTC tw) day_ns ltac:(done)) as Hdm.
  pose proof (Z.div_mod (lastTime tw + timeDiffToUTC tw) day_ns ltac:(done)) as Hdl.
  unfold aligned in Hal. rewrite Hal in Hdl.
  assert (sub64 (bucketStart tw (now e)) (lastTime tw) = bucketStart tw (now e) - lastTime tw) as Hsub.
  { unfold sub64. apply wrap64_id. rewrite Hcur.
    unfold clockInRange, int64_min, int64_max, day_ns in *. lia. }
  set (q := (now e + timeDiffToUTC tw) / day_ns) in *.
  set (k := (lastTime tw + timeDiffToUTC tw) / day_ns) in *.
  set (r := (now e + timeDiffToUTC tw) mod day_ns) in *.
  split.
  - intros Hlt. apply getFileHandler_hot; [by rewrite Hper|].
    rewrite Hsub, Hcur, Hper in *. unfold day_ns in *. nia.
  - intros Hge. rewrite Hsub, Hcur, Hper in *. unfold day_ns in *. nia.
Qed.

End BucketFacts.

Lemma bucketStart_last_local_midnight_witness :
  aligned Demo.tw0 (bucketStart Demo.tw0 (Demo.t0 + 5 * Demo.hour_ns))
  /\ bucketStart Demo.tw0 (Demo.t0 + 5 * Demo.hour_ns) <= Demo.t0 + 5 * Demo.hour_ns
       < bucketStart Demo.tw0 (Demo.t0 + 5 * Demo.hour_ns) + day_ns.
Proof.
  apply (bucketStart_last_local_midnight Demo.tw0 (Demo.t0 + 5 * Demo.hour_ns)).
  - reflexivity.
  - vm_compute. repeat split; discriminate.
Defined.

Lemma bucketStart_same_day_witness :
  bucketStart Demo.tw0 (Demo.t0 + 5 * Demo.hour_ns) = bucketStart Demo.tw0 (Demo.t0 + 23 * Demo.hour_ns).
Proof.
  apply (bucketStart_same_day Demo.tw0).
  - reflexivity.
  - vm_compute. repeat split; discriminate.
  - vm_compute. repeat split; discriminate.
  - vm_compute. reflexivity.
Defined.

Lemma rotation_at_next_midnight_witness :
  (now (Demo.at_ (Demo.t0 + 30 * Demo.hour_ns)) < lastTime Demo.tw_nov2 + period Demo.tw_nov2 ->
   getFileHandler (H := Demo.lib) Demo.tw_nov2 (Demo.at_ (Demo.t0 + 30 * Demo.hour_ns)) Demo.os_nov2
   = Some (Demo.tw_nov2, Demo.os_nov2, (WFile (outFile Demo.tw_nov2), None)))
  /\ (lastTime Demo.tw_nov2 + period Demo.tw_nov2 <= now (Demo.at_ (Demo.t0 + 30 * Demo.hour_ns)) ->
      period Demo.tw_nov2
        <= sub64 (bucketStart Demo.tw_nov2 (now (Demo.at_ (Demo.t0 + 30 * Demo.hour_ns))))
             (lastTime Demo.tw_nov2)
      /\ lastTime Demo.tw_nov2 + period Demo.tw_nov2
           <= bucketStart Demo.tw_nov2 (now (Demo.at_ (Demo.t0 + 30 * Demo.hour_ns)))
           <= now (Demo.at_ (Demo.t0 + 30 * Demo.hour_ns))).
Proof.
  apply (rotation_at_next_midnight (H := Demo.lib)).
  - vm_compute. repeat split; discriminate.
  - vm_compute. reflexivity.
  - vm_compute. repeat split; discriminate.
  - vm_compute. repeat split; discriminate.
Defined.

(** ** A rotation that succeeds, and the first write *)

Lemma wrap64_idem (z : Z) : wrap64 (wrap64 z) = wrap64 z.
Proof. apply wrap64_id, wrap64_range. Qed.

Section RotationMore.
Context `{GoLib}.

(** X4. A write that crosses into a new bucket while the writer holds an open
    file, when no call fails: the old file is closed, the file of the new
    bucket is opened under the name of its bucket start, the sweep is
    launched, the bytes go to the new file, and the writer records the new
    handle, name and bucket start. The calls are made in that order. *)
Theorem Write_rotation_success (tw : DateRotator) (p : list Byte.byte) (e : env) (os : OS)
    (h : handle) (d : fdesc) :
  period tw <> 0 ->
  rotates tw e ->
  outFile tw = Some h ->
  fds os !! h = Some d ->
  fd_open d = true ->
  closeErr e = None ->
  openErr e = None ->
  writeErr e = None ->
  Write tw p e os =
    Some (rotated tw (bucketStart tw (now e)) (length (fds os)),
          {| fds := <[h := {| fd_path := fd_path d; fd_open := false |}]> (fds os)
                    ++ [{| fd_path := bucketPath tw e; fd_open := true |}];
             events := events os ++ [EvClose h; EvOpen (bucketPath tw e); EvGo;
                                     EvWrite (length (fds os)) p] |},
          (Z.of_nat (length p), None)).
Proof.
  intros Hp Hr Hh Hd Hopen Hc Ho Hw. unfold Write.
  rewrite getFileHandler_rotate by done. rewrite Hh.
  unfold File_Close. rewrite Hd, Hopen, Hc.
  rewrite OpenFile_ok by done. simpl.
  unfold File_Write, emit. simpl. rewrite length_insert.
  rewrite lookup_app_r by (by rewrite length_insert).
  rewrite length_insert, Nat.sub_diag. simpl. rewrite Hw.
  by rewrite <- !app_assoc.
Qed.

(** X5. The first write on a writer that [NewDateRotator] has returned, for a
    clock whose bucket starts a day or more after the epoch and a bucket
    name that is not empty: it creates the file named after the bucket start
    in the directory next to the executable, launches the sweep and writes
    the bytes. *)
Theorem first_Write_creates_bucket_file
    (c : ctorEnv) (directory format ext0 : string) (maxAge0 : Z)
    (tw : DateRotator) (p : list Byte.byte) (e : env) (os : OS) :
  NewDateRotator c directory format ext0 maxAge0 = inr tw ->
  day_ns <= bucketStart tw (now e) ->
  time_Format format (bucketStart tw (now e)) +:+ ext0 <> "" ->
  openErr e = None ->
  writeErr e = None ->
  exists absolutePath path,
    executable c = inr absolutePath
    /\ path = filepath_Join (filepath_Join (filepath_Split absolutePath).1 directory)
                (time_Format format (bucketStart tw (now e)) +:+ ext0)
    /\ Write tw p e os =
         Some (rotated tw (bucketStart tw (now e)) (length (fds os)),
               {| fds := fds os ++ [{| fd_path := path; fd_open := true |}];
                  events := events os ++ [EvOpen path; EvGo; EvWrite (length (fds os)) p] |},
               (Z.of_nat (length p), None)).
Proof.
  intros Hnew Hday Hname Ho Hw.
  destruct (NewDateRotator_fresh _ _ _ _ _ _ Hnew) as (Hper & Hlast & Hnone & Hfile & _ & Hfmt & Hext).
  assert (exists absolutePath, executable c = inr absolutePath
            /\ logPath tw = filepath_Join (filepath_Split absolutePath).1 directory)
    as (absolutePath & Hexe & Hpath).
  { unfold NewDateRotator in Hnew. destruct (executable c) as [err|absolutePath]; [done|].
    exists absolutePath. split; [done|].
    destruct (statErr c) as [[|]|]; [destruct (mkdirErr c); [done|]|..];
      by injection Hnew as <-. }
  exists absolutePath, (bucketPath tw e). split; [done|]. split.
  { unfold bucketPath, bucketFile. by rewrite Hpath, Hfmt, Hext. }
  apply Write_no_handle_rotates; try done.
  - rewrite Hper. done.
  - split.
    + rewrite Hlast, Hper. unfold sub64. rewrite Z.sub_0_r.
      unfold bucketStart at 1, sub64. by rewrite wrap64_idem.
    + rewrite Hfile. unfold bucketFile. rewrite Hfmt, Hext. done.
Qed.

(** X6. A writer whose bucket names are all empty (an empty layout and an empty
    extension) never opens a file: the name of the first bucket equals the
    empty name a new writer has recorded, so [getFileHandler] returns the nil
    handle. Every [Write] returns an error with zero bytes written, every
    [Close] returns no error, and neither the writer nor the operating
    system changes. *)
Theorem empty_name_never_opens
    (c : ctorEnv) (directory format ext0 : string) (maxAge0 : Z)
    (tw : DateRotator) (os : OS) (ops : list op) :
  NewDateRotator c directory format ext0 maxAge0 = inr tw ->
  (forall t, time_Format format t +:+ ext0 = "") ->
  exists rets,
    run tw os ops = Some (tw, os, rets)
    /\ Forall (fun r => r = RetWrite 0 (Some (OsError ErrInvalid)) \/ r = RetClose None) rets.
Proof.
  intros Hnew Hempty.
  destruct (NewDateRotator_fresh _ _ _ _ _ _ Hnew) as (Hper & _ & Hnone & Hfile & _ & Hfmt & Hext).
  induction ops as [|o ops (rets & Hrun & Hall)].
  - by exists [].
  - destruct o as [p e|e]; simpl.
    + rewrite Write_no_handle_keeps; [| by rewrite Hper | done |].
      * rewrite Hrun. eexists. split; [done|]. constructor; [by left | done].
      * right. unfold bucketFile. by rewrite Hfile, Hfmt, Hext, Hempty.
    + unfold Close. rewrite Hnone, Hrun. eexists. split; [done|].
      constructor; [by right | done].
Qed.

(** One operation assigns none of the configuration fields. *)
Lemma step_sameConfig (tw tw1 : DateRotator) (os os1 : OS) (o : op) (r : ret) :
  step tw os o = Some (tw1, os1, r) -> sameConfig tw tw1.
Proof.
  intros Hstep.
  assert (forall e tw4 os4 err, Close tw e os = (tw4, os4, err) -> sameConfig tw tw4) as HClose.
  { intros e tw4 os4 err HC. unfold Close in HC. destruct (outFile tw) as [h|].
    - destruct (File_Close h e os) as [os5 [cerr|]]; injection HC as <- <- <-; by repeat split.
    - injection HC as <- <- <-. by repeat split. }
  destruct o as [p e|e]; simpl in Hstep.
  - destruct (Z.eq_dec (period tw) 0) as [Hz | Hp].
    + unfold Write, getFileHandler in Hstep. rewrite Hz in Hstep. done.
    + destruct (Write tw p e os) as [[[tw4 os4] [n err]]|] eqn:HW; [|done].
      injection Hstep as <- <- <-.
      destruct (Write_cases _ _ _ _ _ _ _ Hp HW) as [[-> _] | (_ & -> & _)]; by repeat split.
  - destruct (Close tw e os) as [[tw4 os4] err] eqn:HC. injection Hstep as <- <- <-.
    by eapply HClose.
Qed.

(** X7. No operation assigns the configuration of the writer: the zone
    shift, the period, the horizon, the directory, the layout and the
    extension are, after any sequence of operations, those the writer
    started with. *)
Theorem run_keeps_config (ops : list op) :
  forall (tw tw1 : DateRotator) (os os1 : OS) (rets : list ret),
  run tw os ops = Some (tw1, os1, rets) ->
  sameConfig tw tw1.
Proof.
  induction ops as [|o ops IH]; intros tw tw1 os os1 rets.
  - intros [= <- <- <-]. by repeat split.
  - simpl. destruct (step tw os o) as [[[tw2 os2] r]|] eqn:Hstep; [|done].
    destruct (run tw2 os2 ops) as [[[tw3 os3] rs]|] eqn:Hrun; [|done].
    intros [= <- <- <-].
    destruct (step_sameConfig _ _ _ _ _ _ Hstep) as (H1 & H2 & H3 & H4 & H5 & H6).
    destruct (IH _ _ _ _ _ Hrun) as (G1 & G2 & G3 & G4 & G5 & G6).
    unfold sameConfig. repeat split; congruence.
Qed.

End RotationMore.

(** ** The files the writer owns *)

Lemma File_Close_fds (h : handle) (e : env) (os : OS) :
  fds (File_Close h e os).1 = closed_at h (fds os).
Proof.
  unfold File_Close, closed_at. destruct (fds os !! h) as [d|] eqn:Hd; [|done].
  destruct (fd_open d) eqn:Ho; [done|]. simpl.
  symmetry. apply list_insert_id. rewrite Hd. f_equal. destruct d. simpl in *. by subst.
Qed.

Lemma closed_at_length (h : handle) (l : list fdesc) : length (closed_at h l) = length l.
Proof. unfold closed_at. destruct (l !! h); [apply length_insert | done]. Qed.

Lemma closed_at_lookup_open (h h1 : handle) (l : list fdesc) (d : fdesc) :
  closed_at h l !! h1 = Some d -> fd_open d = true -> h1 <> h /\ l !! h1 = Some d.
Proof.
  unfold closed_at. destruct (l !! h) as [d0|] eqn:Hd0.
  - destruct (decide (h1 = h)) as [-> | Hne].
    + rewrite list_lookup_insert_eq by (by eapply lookup_lt_Some).
      intros [= <-]. done.
    + rewrite list_lookup_insert_ne by done. done.
  - intros Hl Ho. split; [|done]. intros ->. congruence.
Qed.

Lemma closed_at_take (n0 : nat) (h : handle) (l : list fdesc) :
  (n0 <= h)%nat -> take n0 (closed_at h l) = take n0 l.
Proof.
  intros Hle. unfold closed_at. destruct (l !! h); [by apply take_insert_ge | done].
Qed.

Section OwnershipFacts.
Context `{GoLib}.

(** What one call of [getFileHandler] does to the file table. *)
Lemma getFileHandler_fds (tw tw1 : DateRotator) (e : env) (os os1 : OS)
    (w : Writer) (err : option error) :
  period tw <> 0 ->
  getFileHandler tw e os = Some (tw1, os1, (w, err)) ->
  (tw1 = tw /\ fds os1 = fds os)
  \/ (exists h, outFile tw = Some h /\ tw1 = tw /\ fds os1 = closed_at h (fds os))
  \/ (outFile tw1 = Some (length (fds os))
      /\ exists base d,
           fds os1 = base ++ [d] /\ fd_path d = bucketPath tw e
           /\ ((outFile tw = None /\ base = fds os)
               \/ exists h, outFile tw = Some h /\ base = closed_at h (fds os))).
Proof.
  intros Hp. destruct (keeps_or_rotates tw e) as [Hk | Hr].
  - rewrite getFileHandler_keeps by done. intros [= <- <- <- <-]. by left.
  - rewrite getFileHandler_rotate by done.
    destruct (outFile tw) as [h|] eqn:Hh.
    + pose proof (File_Close_fds h e os) as Hfds.
      destruct (File_Close h e os) as [os2 [cerr|]]; simpl in Hfds.
      * intros [= <- <- <- <-]. right. left. by exists h.
      * unfold OpenFile. destruct (openErr e) as [oerr|].
        -- intros [= <- <- <- <-]. right. left. by exists h.
        -- intros [= <- <- <- <-]. right. right. simpl.
           rewrite Hfds, closed_at_length. split; [done|].
           eexists _, _. split; [done|]. split; [done|]. right. by exists h.
    + unfold OpenFile. destruct (openErr e) as [oerr|].
      * intros [= <- <- <- <-]. by left.
      * intros [= <- <- <- <-]. right. right. simpl. split; [done|].
        eexists _, _. split; [done|]. split; [done|]. by left.
Qed.

(** What one operation does to the file table. *)
Lemma step_fds (tw tw1 : DateRotator) (os os1 : OS) (o : op) (r : ret) :
  period tw <> 0 ->
  step tw os o = Some (tw1, os1, r) ->
  (tw1 = tw /\ fds os1 = fds os)
  \/ (exists h, outFile tw = Some h /\ (tw1 = tw \/ outFile tw1 = None)
                /\ fds os1 = closed_at h (fds os))
  \/ (outFile tw1 = Some (length (fds os))
      /\ exists base d,
           fds os1 = base ++ [d]
           /\ ((outFile tw = None /\ base = fds os)
               \/ exists h, outFile tw = Some h /\ base = closed_at h (fds os))).
Proof.
  intros Hp. destruct o as [p e|e]; simpl.
  - unfold Write.
    destruct (getFileHandler tw e os) as [[[tw2 os2] [w gerr]]|] eqn:Hg; [|done].
    pose proof (getFileHandler_fds _ _ _ _ _ _ _ Hp Hg) as Hcases.
    assert (forall os3, fds os3 = fds os2 -> 
      (tw2 = tw /\ fds os3 = fds os)
      \/ (exists h, outFile tw = Some h /\ (tw2 = tw \/ outFile tw2 = None)
                    /\ fds os3 = closed_at h (fds os))
      \/ (outFile tw2 = Some (length (fds os))
          /\ exists base d,
               fds os3 = base ++ [d]
               /\ ((outFile tw = None /\ base = fds os)
                   \/ exists h, outFile tw = Some h /\ base = closed_at h (fds os)))) as Hall.
    { intros os3 ->. destruct Hcases as [? | [(h & ? & ? & ?) | (? & base & d & ? & _ & ?)]].
      - by left.
      - right. left. exists h. auto.
      - right. right. split; [done|]. by exists base, d. }
    destruct w as [|f], gerr as [err|]; try (intros [= <- <- <-]; by apply Hall).
    pose proof (File_Write_fds f p e os2) as Hfw.
    destruct (File_Write f p e os2) as [os3 [n werr]]. simpl in Hfw.
    intros [= <- <- <-]. by apply Hall.
  - unfold Close. destruct (outFile tw) as [h|] eqn:Hh.
    + pose proof (File_Close_fds h e os) as Hfds.
      destruct (File_Close h e os) as [os2 [cerr|]]; simpl in Hfds;
        intros [= <- <- <-]; right; left; exists h; auto.
    + intros [= <- <- <-]. by left.
Qed.

Lemma step_owned (l0 : list fdesc) (tw tw1 : DateRotator) (os os1 : OS) (o : op) (r : ret) :
  period tw <> 0 ->
  NoLeak (length l0) tw os ->
  Foreign (length l0) l0 tw os ->
  step tw os o = Some (tw1, os1, r) ->
  NoLeak (length l0) tw1 os1 /\ Foreign (length l0) l0 tw1 os1.
Proof.
  intros Hp Hleak [Hheld Htake] Hstep.
  assert (length l0 <= length (fds os))%nat as Hlen.
  { rewrite <- Htake at 1. rewrite length_take. lia. }
  destruct (step_fds _ _ _ _ _ _ Hp Hstep)
    as [[-> Hfds] | [(h & Hh & Htw & Hfds) | (Hnew & base & d & Hfds & Hbase)]].
  - split.
    + intros h1 d1 Hge. rewrite Hfds. by apply Hleak.
    + split; [intros h1; rewrite Hfds; apply Hheld | by rewrite Hfds].
  - assert (forall h1 d1, (length l0 <= h1)%nat -> fds os1 !! h1 = Some d1 -> fd_open d1 = true -> False)
      as Hnone.
    { intros h1 d1 Hge Hl Ho. rewrite Hfds in Hl.
      destruct (closed_at_lookup_open _ _ _ _ Hl Ho) as [Hne Hl0].
      specialize (Hleak h1 d1 Hge Hl0 Ho). congruence. }
    split.
    + intros h1 d1 Hge Hl Ho. by destruct (Hnone h1 d1).
    + split.
      * intros h1 Hh1. rewrite Hfds, closed_at_length.
        destruct Htw as [-> | Hn]; [by apply Hheld | congruence].
      * rewrite Hfds. rewrite closed_at_take; [done|]. by apply Hheld.
  - assert (length base = length (fds os)
            /\ take (length l0) base = l0
            /\ forall h1 d1, (length l0 <= h1)%nat -> base !! h1 = Some d1 -> fd_open d1 = true -> False)
      as (Hblen & Hbtake & Hbnone).
    { destruct Hbase as [[Hn ->] | (h & Hh & ->)].
      - split; [done|]. split; [done|].
        intros h1 d1 Hge Hl Ho. specialize (Hleak h1 d1 Hge Hl Ho). congruence.
      - split; [apply closed_at_length|]. split.
        + rewrite closed_at_take; [done|]. by apply Hheld.
        + intros h1 d1 Hge Hl Ho.
          destruct (closed_at_lookup_open _ _ _ _ Hl Ho) as [Hne Hl0].
          specialize (Hleak h1 d1 Hge Hl0 Ho). congruence. }
    split.
    + intros h1 d1 Hge Hl Ho. rewrite Hfds in Hl.
      destruct (decide (h1 < length base)%nat) as [Hlt | Hnlt].
      * rewrite lookup_app_l in Hl by done. by destruct (Hbnone h1 d1).
      * rewrite lookup_app_r in Hl by lia.
        destruct (h1 - length base)%nat as [|k] eqn:Hk; [|by destruct k].
        rewrite Hnew. f_equal. lia.
    + split.
      * intros h1 Hh1. rewrite Hnew in Hh1. injection Hh1 as <-.
        rewrite Hfds, length_app. simpl. lia.
      * rewrite Hfds. rewrite take_app_le by lia. done.
Qed.

Lemma run_owned (l0 : list fdesc) (ops : list op) :
  forall (tw tw1 : DateRotator) (os os1 : OS) (rets : list ret),
  period tw <> 0 ->
  NoLeak (length l0) tw os ->
  Foreign (length l0) l0 tw os ->
  run tw os ops = Some (tw1, os1, rets) ->
  NoLeak (length l0) tw1 os1 /\ Foreign (length l0) l0 tw1 os1.
Proof.
  induction ops as [|o ops IH]; intros tw tw1 os os1 rets Hp Hleak Hfor.
  - by intros [= <- <- <-].
  - simpl. destruct (step tw os o) as [[[tw2 os2] r]|] eqn:Hstep; [|done].
    destruct (run tw2 os2 ops) as [[[tw3 os3] rs]|] eqn:Hrun; [|done].
    intros [= <- <- <-].
    destruct (step_owned _ _ _ _ _ _ _ Hp Hleak Hfor Hstep) as [Hleak2 Hfor2].
    destruct (step_cases _ _ _ _ _ _ Hp Hstep) as [Hper _].
    eapply IH; [| done | done | done]. congruence.
Qed.

(** X8. The writer leaks no file. After any sequence of operations on a writer
    that [NewDateRotator] has returned, every file the writer has opened is
    closed again, except the one it holds in [outFile]: at most one of its
    files is open. *)
Theorem writer_leaks_no_file
    (c : ctorEnv) (directory format ext0 : string) (maxAge0 : Z)
    (tw0 tw : DateRotator) (os0 os : OS) (ops : list op) (rets : list ret)
    (h : handle) (d : fdesc) :
  NewDateRotator c directory format ext0 maxAge0 = inr tw0 ->
  run tw0 os0 ops = Some (tw, os, rets) ->
  (length (fds os0) <= h)%nat ->
  fds os !! h = Some d ->
  fd_open d = true ->
  outFile tw = Some h.
Proof.
  intros Hnew Hrun.
  destruct (NewDateRotator_fresh _ _ _ _ _ _ Hnew) as (Hper & _ & Hnone & _).
  destruct (run_owned (fds os0) ops tw0 tw os0 os rets) as [Hleak _]; try done.
  - by rewrite Hper.
  - intros h1 d1 Hge Hl. apply lookup_lt_Some in Hl. lia.
  - split; [intros h1; congruence | apply take_ge; lia].
  - apply Hleak.
Qed.

(** X9. The writer touches no file but its own. After any sequence of
    operations on a writer that [NewDateRotator] has returned, the files
    that were in the table before are as they were, open or closed, and the
    handle the writer holds, if any, is one it has opened itself. *)
Theorem writer_keeps_other_files
    (c : ctorEnv) (directory format ext0 : string) (maxAge0 : Z)
    (tw0 tw : DateRotator) (os0 os : OS) (ops : list op) (rets : list ret) :
  NewDateRotator c directory format ext0 maxAge0 = inr tw0 ->
  run tw0 os0 ops = Some (tw, os, rets) ->
  take (length (fds os0)) (fds os) = fds os0
  /\ forall h, outFile tw = Some h -> (length (fds os0) <= h < length (fds os))%nat.
Proof.
  intros Hnew Hrun.
  destruct (NewDateRotator_fresh _ _ _ _ _ _ Hnew) as (Hper & _ & Hnone & _).
  destruct (run_owned (fds os0) ops tw0 tw os0 os rets) as [_ [Hheld Htake]]; try done.
  - by rewrite Hper.
  - intros h1 d1 Hge Hl. apply lookup_lt_Some in Hl. lia.
  - split; [intros h1; congruence | apply take_ge; lia].
Qed.

End OwnershipFacts.

(** ** What a successful write has done, and how [Close] behaves *)

(** Closing a file again: the call is made, fails with [ErrClosed] and
    changes nothing in the file table. *)
Lemma File_Close_again (h : handle) (e e1 : env) (os : OS) :
  File_Close h e1 (File_Close h e os).1
  = (emit (EvClose h) (File_Close h e os).1, Some ErrClosed).
Proof.
  unfold File_Close at 2 3. destruct (fds os !! h) as [d|] eqn:Hd.
  - destruct (fd_open d) eqn:Ho.
    + unfold File_Close. simpl.
      rewrite list_lookup_insert_eq by (by eapply lookup_lt_Some). done.
    + unfold File_Close. simpl. by rewrite Hd, Ho.
  - unfold File_Close. simpl. by rewrite Hd.
Qed.

Section WriteCloseFacts.
Context `{GoLib}.

(** When [getFileHandler] returns no error, the writer it returns is the
    field [outFile] of the writer after the call, and the calls recorded
    before are still there. *)
Lemma getFileHandler_result (tw tw1 : DateRotator) (e : env) (os os1 : OS) (w : Writer) :
  period tw <> 0 ->
  getFileHandler tw e os = Some (tw1, os1, (w, None)) ->
  w = WFile (outFile tw1) /\ exists evs, events os1 = events os ++ evs.
Proof.
  intros Hp. destruct (keeps_or_rotates tw e) as [Hk | Hr].
  - rewrite getFileHandler_keeps by done. intros [= <- <- <-].
    split; [done|]. exists []. by rewrite app_nil_r.
  - rewrite getFileHandler_rotate by done.
    assert (exists evs0, events (match outFile tw with Some h => File_Close h e os | None => (os, None) end).1
                         = events os ++ evs0) as [evs0 Hev].
    { destruct (outFile tw) as [h|].
      - exists [EvClose h]. apply File_Close_events.
      - exists []. simpl. by rewrite app_nil_r. }
    destruct (match outFile tw with Some h => File_Close h e os | None => (os, None) end)
      as [os2 [cerr|]]; [done|]. simpl in Hev.
    unfold OpenFile. destruct (openErr e) as [oerr|]; [done|].
    intros [= <- <- <-]. split; [done|]. simpl.
    exists (evs0 ++ [EvOpen (bucketPath tw e); EvGo]).
    rewrite Hev. by rewrite <- !app_assoc.
Qed.

(** X10. A [Write] that returns no error has written the whole buffer, in one
    call and as the last call it made, to the handle the writer holds after
    it; that handle was opened on the file, in the log directory, that is
    named after the bucket start the writer has recorded. *)
Theorem Write_ok_in_recorded_file
    (tw tw1 : DateRotator) (p : list Byte.byte) (e : env) (os os1 : OS) (n : Z) :
  period tw <> 0 ->
  WriterInv tw os ->
  Write tw p e os = Some (tw1, os1, (n, None)) ->
  n = Z.of_nat (length p)
  /\ exists h evs,
       outFile tw1 = Some h
       /\ events os1 = events os ++ evs ++ [EvWrite h p]
       /\ paths os1 !! h
          = Some (filepath_Join (logPath tw1)
                    (time_Format (logFileTimeFormat tw1) (lastTime tw1) +:+ ext tw1)).
Proof.
  intros Hp Hinv HW.
  assert (WriterInv tw1 os1) as Hinv1.
  { apply (step_WriterInv tw tw1 os os1 (OpWrite p e) (RetWrite n None) Hp Hinv).
    simpl. by rewrite HW. }
  unfold Write in HW.
  destruct (getFileHandler tw e os) as [[[tw2 os2] [w gerr]]|] eqn:Hg; [|done].
  destruct gerr as [err|]; [by destruct w|].
  destruct (getFileHandler_result _ _ _ _ _ _ Hp Hg) as [-> [evs Hev]].
  unfold File_Write in HW. destruct (outFile tw2) as [h|] eqn:Hh; [|done].
  destruct (fds os2 !! h) as [d|]; [|done].
  destruct (fd_open d); [|done].
  destruct (writeErr e) as [[m werr]|]; [done|].
  injection HW as <- <- <-. split; [done|].
  exists h, evs. split; [done|]. split.
  - simpl. by rewrite Hev, app_assoc.
  - destruct (Hinv1 h Hh) as (Hname & Hpath & _).
    rewrite Hpath, Hname. done.
Qed.

(** X11. [Close] is idempotent: after a [Close] that returned no error, a second
    [Close] returns no error, makes no call and changes nothing. *)
Theorem Close_idempotent (tw tw1 : DateRotator) (e e1 : env) (os os1 : OS) :
  Close tw e os = (tw1, os1, None) ->
  Close tw1 e1 os1 = (tw1, os1, None).
Proof.
  intros HC. destruct (Close_ok_outFile _ _ _ _ _ HC) as (Hnone & _).
  unfold Close. by rewrite Hnone.
Qed.

(** X12. A [Close] that returns an error leaves the writer as it was, the handle
    still in [outFile]; the file is closed all the same, so every later
    [Close] calls the operating system again and fails with "file already
    closed", and the handle is never cleared. *)
Theorem Close_error_keeps_handle
    (tw tw1 : DateRotator) (e e1 : env) (os os1 : OS) (err : error) :
  Close tw e os = (tw1, os1, Some err) ->
  tw1 = tw
  /\ exists h,
       outFile tw = Some h
       /\ events os1 = events os ++ [EvClose h]
       /\ Close tw1 e1 os1 = (tw1, emit (EvClose h) os1, Some (OsError ErrClosed)).
Proof.
  unfold Close at 1. destruct (outFile tw) as [h|] eqn:Hh; [|done].
  pose proof (File_Close_events h e os) as Hev.
  pose proof (File_Close_again h e e1 os) as Hagain.
  destruct (File_Close h e os) as [os2 [cerr|]]; [|done]. simpl in *.
  intros [= <- <- <-]. split; [done|]. exists h. split; [done|]. split; [done|].
  unfold Close. by rewrite Hh, Hagain.
Qed.

(** X13. [NewDateRotator] fails in two cases only: [os.Executable] fails, or the
    directory does not exist and [os.MkdirAll] fails. In particular an error
    of [os.Stat] of another kind does not make it fail. *)
Theorem NewDateRotator_fails_iff (c : ctorEnv) (directory format ext0 : string) (maxAge0 : Z) :
  (exists err, NewDateRotator c directory format ext0 maxAge0 = inl err)
  <-> (exists e, executable c = inl e)
      \/ (exists absolutePath e,
            executable c = inr absolutePath /\ statErr c = Some true /\ mkdirErr c = Some e).
Proof.
  unfold NewDateRotator. destruct (executable c) as [e|absolutePath].
  - split; [intros _; left; by exists e | intros _; by eexists].
  - destruct (statErr c) as [[|]|].
    + destruct (mkdirErr c) as [e|].
      * split; [intros _; right; by exists absolutePath, e | intros _; by eexists].
      * split; [by intros [err ?] | by intros [[e ?] | (? & e & _ & _ & ?)]].
    + split; [by intros [err ?] | by intros [[e ?] | (? & e & _ & ? & _)]].
    + split; [by intros [err ?] | by intros [[e ?] | (? & e & _ & ? & _)]].
Qed.

End WriteCloseFacts.

(** ** File names and the sweep *)

Lemma string_length_app (s t : string) :
  String.length (s +:+ t) = (String.length s + String.length t)%nat.
Proof. induction s as [|c s IH]; simpl; [done | by rewrite IH]. Qed.

Lemma substring_all (s : string) : substring 0 (String.length s) s = s.
Proof. induction s as [|c s IH]; simpl; [done | by rewrite IH]. Qed.

Lemma substring_0_app (s t : string) : substring 0 (String.length s) (s +:+ t) = s.
Proof.
  induction s as [|c s IH]; simpl; [by destruct t | by rewrite IH].
Qed.

Lemma substring_skip_app (s t : string) :
  substring (String.length s) (String.length t) (s +:+ t) = t.
Proof. induction s as [|c s IH]; simpl; [apply substring_all | done]. Qed.

Lemma substring_split (s : string) : forall n : nat,
  (n <= String.length s)%nat ->
  substring 0 n s +:+ substring n (String.length s - n) s = s.
Proof.
  induction s as [|c s IH]; intros n Hn; simpl in Hn.
  - by replace n with 0%nat by lia.
  - destruct n as [|n]; simpl.
    + by rewrite substring_all.
    + change (String c (substring 0 n s +:+ substring n (String.length s - n) s) = String c s).
      f_equal. apply IH. lia.
Qed.

(** [strings.HasSuffix] holds exactly of the strings that end with the
    suffix. *)
Lemma HasSuffix_iff (s suffix : string) :
  HasSuffix s suffix = true <-> exists pre, s = pre +:+ suffix.
Proof.
  unfold HasSuffix. rewrite andb_true_iff, Nat.leb_le, String.eqb_eq. split.
  - intros [Hle Heq].
    exists (substring 0 (String.length s - String.length suffix) s).
    pose proof (substring_split s (String.length s - String.length suffix) ltac:(lia)) as Hsplit.
    replace (String.length s - (String.length s - String.length suffix))%nat
      with (String.length suffix) in Hsplit by lia.
    by rewrite Heq in Hsplit.
  - intros [pre ->]. rewrite string_length_app. split; [lia|].
    replace (String.length pre + String.length suffix - String.length suffix)%nat
      with (String.length pre) by lia.
    apply substring_skip_app.
Qed.

Section SweepMore.
Context `{GoLib}.

(** A name made of a string and the extension: the extension is stripped
    and the string is parsed. *)
Lemma timeFromName_app (tw : DateRotator) (ts : string) :
  timeFromName tw (ts +:+ ext tw) = time_Parse (logFileTimeFormat tw) ts.
Proof.
  unfold timeFromName.
  assert (HasSuffix (ts +:+ ext tw) (ext tw) = true) as ->.
  { apply HasSuffix_iff. by exists ts. }
  simpl. rewrite string_length_app.
  replace (String.length ts + String.length (ext tw) - String.length (ext tw))%nat
    with (String.length ts) by lia.
  by rewrite substring_0_app.
Qed.

(** A name [timeFromName] accepts ends with the extension. *)
Lemma timeFromName_inv (tw : DateRotator) (name : string) (t : Z) :
  timeFromName tw name = Some t ->
  exists ts, name = ts +:+ ext tw /\ time_Parse (logFileTimeFormat tw) ts = Some t.
Proof.
  intros Ht.
  assert (HasSuffix name (ext tw) = true) as Hsuf.
  { unfold timeFromName in Ht. by destruct (HasSuffix name (ext tw)). }
  apply HasSuffix_iff in Hsuf as [pre ->].
  exists pre. split; [done|]. by rewrite timeFromName_app in Ht.
Qed.

(** X14. [timeFromName] accepts exactly the names that are a string the
    layout parses followed by the extension, and returns the time of that
    string; with an empty extension that is the whole name. *)
Theorem timeFromName_iff (tw : DateRotator) (name : string) (t : Z) :
  timeFromName tw name = Some t
  <-> exists ts, name = ts +:+ ext tw /\ time_Parse (logFileTimeFormat tw) ts = Some t.
Proof.
  split.
  - apply timeFromName_inv.
  - intros (ts & -> & Hparse). by rewrite timeFromName_app.
Qed.

(** X15. The sweep reads the name the writer gives the file of a bucket as
    the layout parses the formatted bucket start: the extension the writer
    appends is the one the sweep strips. So the sweep recognises the files
    of the writer exactly when the layout parses what it formats. *)
Theorem timeFromName_bucketFile (tw : DateRotator) (current : Z) :
  timeFromName tw (bucketFile tw current)
  = time_Parse (logFileTimeFormat tw) (time_Format (logFileTimeFormat tw) current).
Proof. unfold bucketFile. apply timeFromName_app. Qed.

(** X16. A sweep with a horizon other than zero over a directory that cannot be
    listed removes nothing and returns the error of the listing. *)
Theorem cleanRunOnce_unreadable (tw : DateRotator) (se : sweepEnv) (err : oserror) :
  maxAge tw <> 0 ->
  readDir se = inl err ->
  cleanRunOnce tw se = ([EvReadDir (logPath tw)], Some (ReadDirError err)).
Proof.
  intros Hage Hdir. unfold cleanRunOnce, oldLogFiles. rewrite Hdir.
  by destruct (Z.eqb_spec (maxAge tw) 0).
Qed.

(** X17. A sweep with a positive horizon over a directory that can be listed
    returns no error exactly when every removal it tried succeeded. *)
Theorem cleanRunOnce_ok_iff (tw : DateRotator) (se : sweepEnv) (dirEntries : list DirEntry) :
  0 < maxAge tw ->
  readDir se = inr dirEntries ->
  (cleanRunOnce tw se).2 = None
  <-> forall path, EvRemove path ∈ (cleanRunOnce tw se).1 -> removeErr se path = None.
Proof.
  intros Hage Hdir. rewrite (cleanRunOnce_positive tw se dirEntries) by done. simpl.
  unfold firstRemoveError.
  induction (candidates tw se dirEntries) as [|f l IH]; simpl.
  - split; [|done]. intros _ path Hin. apply list_elem_of_singleton in Hin. done.
  - destruct (removeErr se (removePath tw f)) as [e|] eqn:Hrm; simpl.
    + split; [done|]. intros Hall.
      specialize (Hall (removePath tw f)). rewrite Hrm in Hall.
      discriminate Hall. right. by left.
    + rewrite IH. split.
      * intros Hall path [Hbad | [[= ->] | Hin]%elem_of_cons]%elem_of_cons; [done | done |].
        apply Hall. by right.
      * intros Hall path [Hbad | Hin]%elem_of_cons; [done|].
        apply Hall. right. by right.
Qed.

(** X18. The sweep removes log files only, whatever the horizon and the clock:
    a path it removes is that of a directory entry that is not a directory,
    whose name is a string the layout parses followed by the extension, and
    whose [Info] succeeded. Sub-directories and files of another name are
    never removed. *)
Theorem cleanRunOnce_removes_log_files_only
    (tw : DateRotator) (se : sweepEnv) (path : string) :
  (forall l, sort_Sort byFormatTime_Less l ≡ₚ l) ->
  EvRemove path ∈ (cleanRunOnce tw se).1 ->
  exists dirEntries entry ts t fi,
    readDir se = inr dirEntries
    /\ entry ∈ dirEntries
    /\ de_IsDir entry = false
    /\ de_Name entry = ts +:+ ext tw
    /\ time_Parse (logFileTimeFormat tw) ts = Some t
    /\ de_Info entry = Some fi
    /\ path = filepath_Join (logPath tw) (Name fi).
Proof.
  intros Hperm. unfold cleanRunOnce, oldLogFiles.
  destruct (Z.eqb_spec (maxAge tw) 0) as [|_]; [by intros ?%elem_of_nil|].
  destruct (readDir se) as [err|dirEntries]; [by intros ?%list_elem_of_singleton|].
  rewrite removeAll_spec. simpl.
  intros [Hbad | Hin]%elem_of_cons; [done|].
  apply list_elem_of_fmap in Hin as (f & [= ->] & Hin).
  destruct (0 <? maxAge tw); [|by apply elem_of_nil in Hin].
  apply list_elem_of_In, filter_In in Hin as [Hin _].
  apply list_elem_of_In in Hin. rewrite Hperm in Hin.
  apply elem_of_logFilesOf in Hin as (entry & Hentry & Hd & Ht & Hfi).
  apply timeFromName_inv in Ht as (ts & Hname & Hparse).
  by exists dirEntries, entry, ts, (timestamp f), (info f).
Qed.

(** X19. A horizon of 106752 to 213503 days, in nanoseconds, overflows [int64]
    to a negative duration: the cutoff is then after the clock, by 2^64
    nanoseconds minus the horizon, and every log file dated up to the clock
    is a candidate for removal. *)
Theorem cutoffOf_overflow (tw : DateRotator) (se : sweepEnv) :
  maxAge_max < maxAge tw <= 2 * maxAge_max + 1 ->
  cutoffOf tw se = sw_now se + (18446744073709551616 - maxAge tw * day_ns)
  /\ sw_now se < cutoffOf tw se.
Proof.
  unfold maxAge_max, cutoffOf, neg64, mul64, day_ns. intros Hage.
  assert (wrap64 (86400000000000 * maxAge tw) = 86400000000000 * maxAge tw - 18446744073709551616)
    as ->.
  { unfold wrap64.
    replace (86400000000000 * maxAge tw + 9223372036854775808)
      with ((86400000000000 * maxAge tw - 9223372036854775808) + 1 * 18446744073709551616) by lia.
    rewrite Z.mod_add by done. rewrite Z.mod_small by lia. lia. }
  rewrite wrap64_id by (unfold int64_min, int64_max; lia). lia.
Qed.

End SweepMore.

(** ** The prefixes of the log levels *)

Lemma string_app_inj_l (s1 s2 t : string) : s1 +:+ t = s2 +:+ t -> s1 = s2.
Proof.
  intros Heq.
  assert (String.length s1 = String.length s2) as Hlen.
  { apply (f_equal String.length) in Heq. rewrite !string_length_app in Heq. lia. }
  rewrite <- (substring_0_app s1 t), Heq, Hlen. apply substring_0_app.
Qed.

Lemma Level_in_range (lv : Level) :
  LevelTrace <= lv <= LevelFatal ->
  lv = LevelTrace \/ lv = LevelDebug \/ lv = LevelInfo \/ lv = LevelNotice
  \/ lv = LevelWarn \/ lv = LevelError \/ lv = LevelFatal.
Proof. unfold LevelTrace, LevelDebug, LevelInfo, LevelNotice, LevelWarn, LevelError, LevelFatal. lia. Qed.

(** X20. [toString] never indexes [strs] out of range, whatever the level, the
    negative ones and those above [LevelFatal] included; its result is a
    bracketed tag followed by one space, the tag being the name of the level
    or, for a level without a name, a question mark and its number. *)
Theorem toString_total (lv : Level) :
  exists tag,
    toString lv = Some ("[" +:+ tag +:+ "] ")
    /\ (LevelTrace <= lv <= LevelFatal
        \/ tag = "?" +:+ pretty lv).
Proof.
  unfold toString.
  destruct (Z.leb_spec LevelTrace lv) as [Hlo | Hlo]; simpl.
  - destruct (Z.leb_spec lv LevelFatal) as [Hhi | Hhi].
    + destruct (Level_in_range lv (conj Hlo Hhi)) as [-> | [-> | [-> | [-> | [-> | [-> | ->]]]]]].
      * exists "Trace". split; [reflexivity | by left].
      * exists "Debug". split; [reflexivity | left; done].
      * exists "Info". split; [reflexivity | left; done].
      * exists "Notice". split; [reflexivity | left; done].
      * exists "Warn". split; [reflexivity | left; done].
      * exists "Error". split; [reflexivity | left; done].
      * exists "Fatal". split; [reflexivity | left; done].
    + exists ("?" +:+ pretty lv). split; [reflexivity | by right].
  - exists ("?" +:+ pretty lv). split; [reflexivity | by right].
Qed.

(** X21. Two different levels never have the same prefix: the names differ from
    one another, no name starts with a question mark, and the decimal
    numbers of two different levels differ. *)
Theorem toString_inj (a b : Level) :
  a <> b -> toString a <> toString b.
Proof.
  intros Hne Heq. apply Hne. clear Hne. unfold toString in Heq.
  destruct ((LevelTrace <=? a) && (a <=? LevelFatal)) eqn:Ha;
    destruct ((LevelTrace <=? b) && (b <=? LevelFatal)) eqn:Hb.
  - apply andb_true_iff in Ha as [Ha1 Ha2]. apply andb_true_iff in Hb as [Hb1 Hb2].
    apply Z.leb_le in Ha1, Ha2, Hb1, Hb2.
    destruct (Level_in_range a (conj Ha1 Ha2)) as [-> | [-> | [-> | [-> | [-> | [-> | ->]]]]]];
      destruct (Level_in_range b (conj Hb1 Hb2)) as [-> | [-> | [-> | [-> | [-> | [-> | ->]]]]]];
      (reflexivity || (vm_compute in Heq; discriminate Heq)).
  - apply andb_true_iff in Ha as [Ha1 Ha2]. apply Z.leb_le in Ha1, Ha2.
    destruct (Level_in_range a (conj Ha1 Ha2)) as [-> | [-> | [-> | [-> | [-> | [-> | ->]]]]]];
      discriminate Heq.
  - apply andb_true_iff in Hb as [Hb1 Hb2]. apply Z.leb_le in Hb1, Hb2.
    destruct (Level_in_range b (conj Hb1 Hb2)) as [-> | [-> | [-> | [-> | [-> | [-> | ->]]]]]];
      discriminate Heq.
  - injection Heq as Heq. change (pretty a +:+ "] " = pretty b +:+ "] ") in Heq.
    apply string_app_inj_l in Heq. by apply (inj pretty).
Qed.

Lemma toString_inj_witness : toString LevelInfo <> toString 7.
Proof. apply (toString_inj LevelInfo 7). vm_compute. discriminate. Defined.

(** ** Further concrete runs *)

Lemma Write_rotation_success_witness :
  Write (H := Demo.lib) Demo.tw_nov2 Demo.hello (Demo.at_ (Demo.t0 + 49 * Demo.hour_ns)) Demo.os_nov2 =
    Some (rotated (H := Demo.lib) Demo.tw_nov2
            (bucketStart Demo.tw_nov2 (now (Demo.at_ (Demo.t0 + 49 * Demo.hour_ns))))
            (length (fds Demo.os_nov2)),
          {| fds := <[0%nat := {| fd_path := fd_path {| fd_path := "/opt/app/logs/2026-11-02.log";
                                                        fd_open := true |};
                                  fd_open := false |}]> (fds Demo.os_nov2)
                    ++ [{| fd_path := bucketPath (H := Demo.lib) Demo.tw_nov2
                                        (Demo.at_ (Demo.t0 + 49 * Demo.hour_ns));
                           fd_open := true |}];
             events := events Demo.os_nov2
                       ++ [EvClose 0;
                           EvOpen (bucketPath (H := Demo.lib) Demo.tw_nov2
                                     (Demo.at_ (Demo.t0 + 49 * Demo.hour_ns)));
                           EvGo; EvWrite (length (fds Demo.os_nov2)) Demo.hello] |},
          (Z.of_nat (length Demo.hello), None)).
Proof.
  apply (Write_rotation_success (H := Demo.lib)).
  - vm_compute. discriminate.
  - split; vm_compute; discriminate.
  - reflexivity.
  - reflexivity.
  - reflexivity.
  - reflexivity.
  - reflexivity.
  - reflexivity.
Defined.

Lemma first_Write_creates_bucket_file_witness :
  exists absolutePath path,
    executable Demo.ctor = inr absolutePath
    /\ path = Demo.Join (Demo.Join (Demo.Split absolutePath).1 "logs")
                (Demo.Format "2006-01-02"
                   (bucketStart Demo.tw0 (now (Demo.at_ (Demo.t0 + Demo.hour_ns)))) +:+ ".log")
    /\ Write (H := Demo.lib) Demo.tw0 Demo.hello (Demo.at_ (Demo.t0 + Demo.hour_ns)) Demo.os0 =
         Some (rotated (H := Demo.lib) Demo.tw0
                 (bucketStart Demo.tw0 (now (Demo.at_ (Demo.t0 + Demo.hour_ns))))
                 (length (fds Demo.os0)),
               {| fds := fds Demo.os0 ++ [{| fd_path := path; fd_open := true |}];
                  events := events Demo.os0
                            ++ [EvOpen path; EvGo; EvWrite (length (fds Demo.os0)) Demo.hello] |},
               (Z.of_nat (length Demo.hello), None)).
Proof.
  apply (first_Write_creates_bucket_file (H := Demo.lib) Demo.ctor "logs" "2006-01-02" ".log" 7).
  - vm_compute. reflexivity.
  - vm_compute. discriminate.
  - vm_compute. discriminate.
  - reflexivity.
  - reflexivity.
Defined.

Lemma empty_name_never_opens_witness :
  exists rets,
    run (H := Demo.lib) DemoMore.tw_empty Demo.os0 DemoMore.ops3
      = Some (DemoMore.tw_empty, Demo.os0, rets)
    /\ Forall (fun r => r = RetWrite 0 (Some (OsError ErrInvalid)) \/ r = RetClose None) rets.
Proof.
  apply (empty_name_never_opens (H := Demo.lib) Demo.ctor "logs" "" "" 7).
  - vm_compute. reflexivity.
  - intros t. reflexivity.
Defined.

Lemma run_keeps_config_witness : sameConfig Demo.tw0 DemoMore.tw_after3.
Proof.
  apply (run_keeps_config (H := Demo.lib) DemoMore.ops3 Demo.tw0 DemoMore.tw_after3
           DemoMore.os_other DemoMore.os_after3 DemoMore.rets3).
  vm_compute. reflexivity.
Defined.

Lemma writer_leaks_no_file_witness : outFile DemoMore.tw_after3 = Some 2%nat.
Proof.
  apply (writer_leaks_no_file (H := Demo.lib) Demo.ctor "logs" "2006-01-02" ".log" 7
           Demo.tw0 DemoMore.tw_after3 DemoMore.os_other DemoMore.os_after3
           DemoMore.ops3 DemoMore.rets3 2
           {| fd_path := "/opt/app/logs/2026-11-02.log"; fd_open := true |}).
  - vm_compute. reflexivity.
  - vm_compute. reflexivity.
  - simpl. lia.
  - reflexivity.
  - reflexivity.
Defined.

Lemma writer_keeps_other_files_witness :
  take (length (fds DemoMore.os_other)) (fds DemoMore.os_after3) = fds DemoMore.os_other
  /\ forall h, outFile DemoMore.tw_after3 = Some h ->
       (length (fds DemoMore.os_other) <= h < length (fds DemoMore.os_after3))%nat.
Proof.
  apply (writer_keeps_other_files (H := Demo.lib) Demo.ctor "logs" "2006-01-02" ".log" 7
           Demo.tw0 DemoMore.tw_after3 DemoMore.os_other DemoMore.os_after3
           DemoMore.ops3 DemoMore.rets3).
  - vm_compute. reflexivity.
  - vm_compute. reflexivity.
Defined.

Lemma Write_ok_in_recorded_file_witness :
  2 = Z.of_nat (length Demo.hello)
  /\ exists h evs,
       outFile Demo.tw_nov2 = Some h
       /\ events (emit (EvWrite 0 Demo.hello) Demo.os_nov2)
          = events Demo.os_nov2 ++ evs ++ [EvWrite h Demo.hello]
       /\ paths (emit (EvWrite 0 Demo.hello) Demo.os_nov2) !! h
          = Some (Demo.Join (logPath Demo.tw_nov2)
                    (Demo.Format (logFileTimeFormat Demo.tw_nov2) (lastTime Demo.tw_nov2)
                     +:+ ext Demo.tw_nov2)).
Proof.
  apply (Write_ok_in_recorded_file (H := Demo.lib) Demo.tw_nov2 Demo.tw_nov2 Demo.hello
           (Demo.at_ (Demo.t0 + 30 * Demo.hour_ns)) Demo.os_nov2).
  - vm_compute. discriminate.
  - intros h [= <-]. split; [vm_compute; reflexivity|]. split; [vm_compute; reflexivity|].
    exists (Demo.t0 + day_ns). vm_compute. reflexivity.
  - vm_compute. reflexivity.
Defined.

Lemma Close_idempotent_witness :
  Close Demo.tw_closed (Demo.at_ (Demo.t0 + 31 * Demo.hour_ns)) Demo.os_closed
  = (Demo.tw_closed, Demo.os_closed, None).
Proof.
  apply (Close_idempotent Demo.tw_nov2 Demo.tw_closed (Demo.at_ (Demo.t0 + 30 * Demo.hour_ns))
           (Demo.at_ (Demo.t0 + 31 * Demo.hour_ns)) Demo.os_nov2 Demo.os_closed).
  vm_compute. reflexivity.
Defined.

Lemma Close_error_keeps_handle_witness :
  Demo.tw_nov2 = Demo.tw_nov2
  /\ exists h,
       outFile Demo.tw_nov2 = Some h
       /\ events (File_Close 0 (Demo.fail_close (Demo.t0 + 30 * Demo.hour_ns)) Demo.os_nov2).1
          = events Demo.os_nov2 ++ [EvClose h]
       /\ Close Demo.tw_nov2 (Demo.at_ (Demo.t0 + 31 * Demo.hour_ns))
            (File_Close 0 (Demo.fail_close (Demo.t0 + 30 * Demo.hour_ns)) Demo.os_nov2).1
          = (Demo.tw_nov2,
             emit (EvClose h) (File_Close 0 (Demo.fail_close (Demo.t0 + 30 * Demo.hour_ns)) Demo.os_nov2).1,
             Some (OsError ErrClosed)).
Proof.
  apply (Close_error_keeps_handle Demo.tw_nov2 Demo.tw_nov2
           (Demo.fail_close (Demo.t0 + 30 * Demo.hour_ns)) (Demo.at_ (Demo.t0 + 31 * Demo.hour_ns))
           Demo.os_nov2 _ (OsError (Errno "input/output error"))).
  vm_compute. reflexivity.
Defined.

Lemma cleanRunOnce_unreadable_witness :
  cleanRunOnce (H := Demo.lib) Demo.tw0 Demo.se_unreadable
  = ([EvReadDir (logPath Demo.tw0)], Some (ReadDirError (Errno "no such file or directory"))).
Proof.
  apply (cleanRunOnce_unreadable (H := Demo.lib) Demo.tw0 Demo.se_unreadable).
  - vm_compute. discriminate.
  - reflexivity.
Defined.

Lemma cleanRunOnce_ok_iff_witness :
  (cleanRunOnce (H := Demo.lib) Demo.tw0 Demo.se_busy).2 = None
  <-> forall path, EvRemove path ∈ (cleanRunOnce (H := Demo.lib) Demo.tw0 Demo.se_busy).1 ->
        removeErr Demo.se_busy path = None.
Proof.
  apply (cleanRunOnce_ok_iff (H := Demo.lib) Demo.tw0 Demo.se_busy
           [Demo.file "2026-10-01.log"; Demo.file "2026-10-02.log"; Demo.file "2026-10-31.log"]).
  - vm_compute. reflexivity.
  - reflexivity.
Defined.

Lemma cleanRunOnce_removes_log_files_only_witness :
  exists dirEntries entry ts t fi,
    readDir Demo.se_midnight = inr dirEntries
    /\ entry ∈ dirEntries
    /\ de_IsDir entry = false
    /\ de_Name entry = ts +:+ ext Demo.tw0
    /\ Demo.Parse (logFileTimeFormat Demo.tw0) ts = Some t
    /\ de_Info entry = Some fi
    /\ "/opt/app/logs/2026-10-24.log" = Demo.Join (logPath Demo.tw0) (Name fi).
Proof.
  apply (cleanRunOnce_removes_log_files_only (H := Demo.lib) Demo.tw0 Demo.se_midnight).
  - intros l. apply Demo_Sort_perm.
  - apply list_elem_of_In. vm_compute. auto.
Defined.

Lemma cutoffOf_overflow_witness :
  cutoffOf DemoMore.tw_long Demo.se_midnight
    = sw_now Demo.se_midnight + (18446744073709551616 - maxAge DemoMore.tw_long * day_ns)
  /\ sw_now Demo.se_midnight < cutoffOf DemoMore.tw_long Demo.se_midnight.
Proof.
  apply (cutoffOf_overflow DemoMore.tw_long Demo.se_midnight).
  vm_compute. split; [reflexivity | discriminate].
Defined.

(** ** What depends on the configuration only *)

Section ConfigFacts.
Context `{GoLib}.

Lemma logFilesOf_config (tw tw1 : DateRotator) (dirEntries : list DirEntry) :
  sameConfig tw tw1 -> logFilesOf tw1 dirEntries = logFilesOf tw dirEntries.
Proof.
  intros (_ & _ & _ & _ & Hfmt & Hext).
  induction dirEntries as [|entry rest IH]; simpl; [done|].
  unfold timeFromName. by rewrite Hfmt, Hext, IH.
Qed.

Lemma cleanRunOnce_config (tw tw1 : DateRotator) (se : sweepEnv) :
  sameConfig tw tw1 -> cleanRunOnce tw1 se = cleanRunOnce tw se.
Proof.
  intros Hcfg. pose proof Hcfg as (_ & _ & Hage & Hpath & _ & _).
  unfold cleanRunOnce, oldLogFiles, cutoffOf. rewrite Hage, Hpath.
  destruct (maxAge tw =? 0); [done|].
  destruct (readDir se) as [err|dirEntries]; [done|].
  rewrite (logFilesOf_config tw tw1) by done.
  rewrite !removeAll_spec. unfold firstRemoveError, removePath. by rewrite Hpath.
Qed.

(** X22. The sweep reads nothing that [Write] or [Close] assigns: on the writer
    as it is after any sequence of operations, a sweep tries the same
    removals and returns the same error as on the writer as it was before.
    The sweep launched by a rotation is therefore the same whatever the
    writes that run beside it do to the writer. *)
Theorem sweep_reads_config_only (ops : list op) :
  forall (tw tw1 : DateRotator) (os os1 : OS) (rets : list ret) (se : sweepEnv),
  run tw os ops = Some (tw1, os1, rets) ->
  cleanRunOnce tw1 se = cleanRunOnce tw se.
Proof.
  induction ops as [|o ops IH]; intros tw tw1 os os1 rets se.
  - by intros [= <- <- <-].
  - simpl. destruct (step tw os o) as [[[tw2 os2] r]|] eqn:Hstep; [|done].
    destruct (run tw2 os2 ops) as [[[tw3 os3] rs]|] eqn:Hrun; [|done].
    intros [= <- <- <-].
    rewrite (IH _ _ _ _ _ se Hrun).
    apply cleanRunOnce_config. by eapply step_sameConfig.
Qed.

Lemma run_aligned (ops : list op) : forall (tw tw1 : DateRotator) (os os1 : OS) (rets : list ret),
  period tw = day_ns ->
  Forall (fun o => civilClock tw (now (op_env o))) ops ->
  (lastTime tw = 0 /\ outFile tw = None) \/ aligned tw (lastTime tw) ->
  run tw os ops = Some (tw1, os1, rets) ->
  (lastTime tw1 = 0 /\ outFile tw1 = None) \/ aligned tw1 (lastTime tw1).
Proof.
  induction ops as [|o ops IH]; intros tw tw1 os os1 rets Hper Hall Hinv.
  - by intros [= <- <- <-].
  - simpl. destruct (step tw os o) as [[[tw2 os2] r]|] eqn:Hstep; [|done].
    destruct (run tw2 os2 ops) as [[[tw3 os3] rs]|] eqn:Hrun; [|done].
    intros [= <- <- <-].
    inversion Hall as [|? ? Ho Hrest]; subst.
    assert (period tw <> 0) as Hp by (by rewrite Hper).
    destruct (step_sameConfig _ _ _ _ _ _ Hstep) as (Hdiff & Hper2 & _).
    apply (IH tw2 tw3 os2 os3 rs); [congruence | | | done].
    + eapply Forall_impl; [exact Hrest|]. intros o1. unfold civilClock. by rewrite Hdiff.
    + destruct (step_cases _ _ _ _ _ _ Hp Hstep) as (_ & [[Htw _] | (_ & Heq & _)]).
      * destruct Htw as [-> | [Hnone Hlast]]; [done|].
        destruct Hinv as [[Hz _] | Hal].
        -- left. split; [congruence | done].
        -- right. unfold aligned in *. by rewrite Hlast, Hdiff.
      * right. unfold aligned. rewrite Hdiff. rewrite Heq. simpl.
        by apply bucketStart_aligned.
Qed.

(** X23. While the clock reads dates from the epoch on, the file a writer holds
    is always that of a local midnight: after any sequence of operations on
    a writer that [NewDateRotator] has returned, a writer that holds a
    handle has recorded a bucket start that is a multiple of 24 hours once
    shifted by the zone. *)
Theorem held_file_starts_at_local_midnight
    (c : ctorEnv) (directory format ext0 : string) (maxAge0 : Z)
    (tw0 tw : DateRotator) (os0 os : OS) (ops : list op) (rets : list ret) (h : handle) :
  NewDateRotator c directory format ext0 maxAge0 = inr tw0 ->
  Forall (fun o => civilClock tw0 (now (op_env o))) ops ->
  run tw0 os0 ops = Some (tw, os, rets) ->
  outFile tw = Some h ->
  (lastTime tw + timeDiffToUTC tw) mod day_ns = 0.
Proof.
  intros Hnew Hall Hrun Hh.
  destruct (NewDateRotator_fresh _ _ _ _ _ _ Hnew) as (Hper & Hlast & Hnone & _).
  destruct (run_aligned ops tw0 tw os0 os rets Hper Hall) as [[_ Hn] | Hal]; try done.
  - by left.
  - congruence.
Qed.

End ConfigFacts.

Lemma sweep_reads_config_only_witness :
  cleanRunOnce (H := Demo.lib) DemoMore.tw_after3 Demo.se_midnight
  = cleanRunOnce (H := Demo.lib) Demo.tw0 Demo.se_midnight.
Proof.
  apply (sweep_reads_config_only (H := Demo.lib) DemoMore.ops3 Demo.tw0 DemoMore.tw_after3
           DemoMore.os_other DemoMore.os_after3 DemoMore.rets3).
  vm_compute. reflexivity.
Defined.

Lemma held_file_starts_at_local_midnight_witness :
  (lastTime DemoMore.tw_after3 + timeDiffToUTC DemoMore.tw_after3) mod day_ns = 0.
Proof.
  apply (held_file_starts_at_local_midnight (H := Demo.lib) Demo.ctor "logs" "2006-01-02" ".log" 7
           Demo.tw0 DemoMore.tw_after3 DemoMore.os_other DemoMore.os_after3
           DemoMore.ops3 DemoMore.rets3 2).
  - vm_compute. reflexivity.
  - repeat constructor; vm_compute; discriminate.
  - vm_compute. reflexivity.
  - reflexivity.
Defined.
